(** * Sealed-bid auctions: settlement trigger, status trigger, bid policy,
      bid page and realtime subscription service

    A shallow embedding of
    - [supabase/migrations/20250225124845_broad_lagoon.sql]: the tables, the
      row-level-security policies on [bids] and [auctions], the trigger
      function [check_auction_status] and its trigger;
    - the migration that adds sealed bidding: the [notifications] table and
      the trigger function [determine_auction_winner] and its trigger;
    - [src/pages/AuctionDetail.tsx]: [fetchAuctionDetails], [handleBidSubmit],
      the callback for changes on [bids] and the conditions under which the
      bid form is rendered;
    - [src/lib/websocket.ts]: [WebSocketService].

    Conventions.  [uuid] and [text] are strings, [timestamptz] is an integer
    number of clock ticks, [decimal] (a JavaScript [number] on the client) is
    an integer amount, in whole units: the code compares amounts, adds 1 to
    one and prints one, and amounts with a fractional part are not
    modelled.  A nullable column is an [option].  A table is the list of its
    rows in the order in which a scan delivers them.  A statement that raises
    (and so aborts its transaction) returns [None], or, where the error
    matters, [Raised] with its SQLSTATE.  A trigger function takes the rows
    [OLD] and [NEW] and the database and gives the database it leaves.
    [Settlement] has [determine_auction_winner] on its own, its [UPDATE] a
    write of the rows it names; [Installed] has both trigger functions with
    the triggers that their [UPDATE]s fire and the policies that bind
    them. *)

From Stdlib Require Import ZArith Bool Lia.
From stdpp Require Import base option strings list sorting gmap pretty.

Local Open Scope Z_scope.

(** ** Tables *)

Module Schema.

Definition uuid := string.
Definition text := string.
Definition timestamptz := Z.
Definition decimal := Z.

(** [CREATE TYPE auction_status AS ENUM ('draft','active','ended','cancelled')] *)
Inductive auction_status := draft | active | ended | cancelled.

#[global] Instance auction_status_eq_dec : EqDecision auction_status.
Proof. solve_decision. Defined.

(** [public.products]; [description] and the timestamps are read by no
    code below and are left out. *)
Record product := {
  p_id : uuid;
  seller_id : uuid;
  title : text;
  images : option (list text)
}.

(** [public.auctions].  [status] has a default but no [NOT NULL]. *)
Record auction := {
  a_id : uuid;
  product_id : uuid;
  start_price : decimal;
  start_time : timestamptz;
  end_time : timestamptz;
  status : option auction_status;
  winner_id : option uuid;
  winning_bid_id : option uuid
}.

(** [public.bids]: every column, since [determine_auction_winner] tests the
    whole row.  [created_at] and [updated_at] have [DEFAULT now()] but no
    [NOT NULL]. *)
Record bid := {
  b_id : uuid;
  auction_id : uuid;
  bidder_id : uuid;
  amount : decimal;
  created_at : option timestamptz;
  updated_at : option timestamptz
}.

(** [public.notifications]; [id], [read] and [created_at] take their
    defaults and are left out. *)
Record notification := {
  user_id : uuid;
  n_title : text;
  message : text
}.

Record database := {
  products : list product;
  auctions : list auction;
  bids : list bid;
  notifications : list notification
}.

#[global] Instance product_eq_dec : EqDecision product.
Proof. solve_decision. Defined.
#[global] Instance auction_eq_dec : EqDecision auction.
Proof. solve_decision. Defined.
#[global] Instance bid_eq_dec : EqDecision bid.
Proof. solve_decision. Defined.
#[global] Instance notification_eq_dec : EqDecision notification.
Proof. solve_decision. Defined.

Definition set_auctions (f : list auction → list auction) (db : database) : database :=
  {| products := products db; auctions := f (auctions db);
     bids := bids db; notifications := notifications db |}.

Definition set_bids (f : list bid → list bid) (db : database) : database :=
  {| products := products db; auctions := auctions db;
     bids := f (bids db); notifications := notifications db |}.

Definition set_notifications (f : list notification → list notification)
    (db : database) : database :=
  {| products := products db; auctions := auctions db;
     bids := bids db; notifications := f (notifications db) |}.

(** [UPDATE t SET ... WHERE cond]: every row that satisfies [cond] is
    rewritten, the others are kept, the scan order is unchanged. *)
Definition update_where {A} (cond : A → bool) (set : A → A) (rows : list A) : list A :=
  map (λ r, if cond r then set r else r) rows.

(** The row of [auctions] with a given primary key. *)
Definition lookup_auction (db : database) (i : uuid) : option auction :=
  List.find (λ a, bool_decide (a_id a = i)) (auctions db).

(** A scalar subquery [(SELECT col FROM t WHERE ...)]: SQL NULL ([Some None])
    when no row qualifies, the value when exactly one does, an error
    ([None]) when more than one does. *)
Definition scalar_subquery {A} (rows : list A) : option (option A) :=
  match rows with
  | [] => Some None
  | [x] => Some (Some x)
  | _ => None
  end.

(** [a || b] on text: NULL when either side is NULL. *)
Definition concat_text (a b : option text) : option text :=
  match a, b with
  | Some x, Some y => Some (x +:+ y)
  | _, _ => None
  end.

(** [ORDER BY amount DESC LIMIT 1] over rows in scan order.  The sort key is
    [amount] alone; PostgreSQL leaves the order of rows with equal keys
    open.  The model keeps the first row of greatest amount in the order in
    which the rows are delivered. *)
Fixpoint order_by_amount_desc_limit_1 (rows : list bid) : option bid :=
  match rows with
  | [] => None
  | b :: rest =>
      match order_by_amount_desc_limit_1 rest with
      | Some c => if amount b <? amount c then Some c else Some b
      | None => Some b
      end
  end.

End Schema.

Export Schema.

(** ** The settlement trigger [determine_auction_winner] *)

Module Settlement.

(** [SELECT * INTO winning_bid FROM public.bids WHERE auction_id = NEW.id
     ORDER BY amount DESC LIMIT 1]. *)
Definition select_winning_bid (NEW : auction) (db : database) : option bid :=
  order_by_amount_desc_limit_1
    (filter (λ b, auction_id b = a_id NEW) (bids db)).

(** [winning_bid IS NOT NULL] on a record variable: true when a row was
    assigned and every one of its fields is non-null (PostgreSQL's test on
    row values).  [id], [auction_id], [bidder_id] and [amount] are
    [NOT NULL] columns; the two timestamps are not. *)
Definition record_is_not_null (r : option bid) : bool :=
  match r with
  | Some b => bool_decide (is_Some (created_at b)) && bool_decide (is_Some (updated_at b))
  | None => false
  end.

(** [INSERT INTO public.notifications (user_id, title, message) VALUES ...];
    the three columns are [NOT NULL]. *)
Definition insert_notification (u : option uuid) (t m : option text)
    (db : database) : option database :=
  match u, t, m with
  | Some u, Some t, Some m =>
      Some (set_notifications
              (λ ns, ns ++ [{| user_id := u; n_title := t; message := m |}]) db)
  | _, _, _ => None
  end.

(** [UPDATE public.auctions SET winner_id = winning_bid.bidder_id,
     winning_bid_id = winning_bid.id WHERE id = NEW.id]. *)
Definition set_winner (wb : bid) (a : auction) : auction :=
  {| a_id := a_id a; product_id := product_id a; start_price := start_price a;
     start_time := start_time a; end_time := end_time a; status := status a;
     winner_id := Some (bidder_id wb); winning_bid_id := Some (b_id wb) |}.

Definition product_column {A} (f : product → A) (NEW : auction) (db : database)
    : option (option A) :=
  scalar_subquery (f <$> filter (λ p, p_id p = product_id NEW) (products db)).

(** The trigger function on its own, for an update that replaced the row
    [OLD] by [NEW].  The value it returns ([NEW]) is ignored for an AFTER
    trigger; the result here is the database it leaves.  Its own [UPDATE]
    is applied to the table as a write of the row, without the triggers
    that this write fires in turn: those are in [Installed]. *)
Definition determine_auction_winner (OLD NEW : auction) (db : database)
    : option database :=
  if bool_decide (status NEW = Some ended) && bool_decide (status OLD = Some active) then
    let winning_bid := select_winning_bid NEW db in
    if record_is_not_null winning_bid then
      match winning_bid with
      | Some wb =>
          let db1 :=
            set_auctions
              (update_where (λ a, bool_decide (a_id a = a_id NEW)) (set_winner wb)) db in
          item ← product_column title NEW db1;
          db2 ← insert_notification (Some (bidder_id wb)) (Some "Auction Won!")
                  (concat_text
                     (Some "Congratulations! You won the auction for item: ") item)
                  db1;
          seller ← product_column seller_id NEW db2;
          insert_notification seller (Some "Auction Ended")
            (concat_text (Some "Your auction has ended with a winning bid of $")
               (Some (pretty (amount wb))))
            db2
      | None => Some db
      end
    else Some db
  else Some db.

(** What a settlement writes when the selected row passes the
    [IS NOT NULL] test and the auction's product is there. *)
Definition settled (NEW : auction) (wb : bid) (p : product) (db : database) : database :=
  {| products := products db;
     auctions := update_where (λ a, bool_decide (a_id a = a_id NEW)) (set_winner wb)
                   (auctions db);
     bids := bids db;
     notifications :=
       notifications db ++
       [ {| user_id := bidder_id wb; n_title := "Auction Won!";
            message := "Congratulations! You won the auction for item: " +:+ title p |};
         {| user_id := seller_id p; n_title := "Auction Ended";
            message := "Your auction has ended with a winning bid of $"
                       +:+ pretty (amount wb) |} ] |}.

End Settlement.

(** ** The status that [check_auction_status] computes *)

Module Lifecycle.

(** [CASE WHEN now() >= end_time THEN 'ended'
          WHEN now() >= start_time THEN 'active' ELSE status END],
    evaluated on the row being updated. *)
Definition status_by_clock (now : timestamptz) (a : auction) : option auction_status :=
  if now >=? end_time a then Some ended
  else if now >=? start_time a then Some active
  else status a.

Definition set_status (s : option auction_status) (a : auction) : auction :=
  {| a_id := a_id a; product_id := product_id a; start_price := start_price a;
     start_time := start_time a; end_time := end_time a; status := s;
     winner_id := winner_id a; winning_bid_id := winning_bid_id a |}.

End Lifecycle.

(** ** Row-level security on [bids] and [auctions] *)

Module Policy.

(** [auth.uid()]: the caller's id, [None] for a caller that is not
    authenticated.  Every policy is declared [TO authenticated]. *)
Definition auth_uid := option uuid.

(** ["Users can view own bids" FOR SELECT USING (auth.uid() = bidder_id)]. *)
Definition users_can_view_own_bids (uid : auth_uid) (b : bid) : bool :=
  bool_decide (uid = Some (bidder_id b)).

(** ["Anyone can view auctions" FOR SELECT USING (true)] and
    ["Anyone can view products" FOR SELECT USING (true)]. *)
Definition anyone_can_view (uid : auth_uid) : bool :=
  bool_decide (is_Some uid).

Definition select_bids (uid : auth_uid) (db : database) : list bid :=
  filter (λ b, users_can_view_own_bids uid b) (bids db).

Definition select_auctions (uid : auth_uid) (db : database) : list auction :=
  if anyone_can_view uid then auctions db else [].

Definition select_products (uid : auth_uid) (db : database) : list product :=
  if anyone_can_view uid then products db else [].

(** ["Users can create bids" FOR INSERT WITH CHECK (
       auth.uid() = bidder_id AND
       EXISTS (SELECT 1 FROM public.auctions a
               WHERE a.id = auction_id AND a.status = 'active'
                 AND a.end_time > now()))]. *)
Definition users_can_create_bids (uid : auth_uid) (now : timestamptz)
    (db : database) (row : bid) : bool :=
  bool_decide (uid = Some (bidder_id row)) &&
  existsb (λ a, bool_decide (a_id a = auction_id row)
                && bool_decide (status a = Some active)
                && (end_time a >? now))
          (select_auctions uid db).

(** The row stored for [insert([{auction_id, bidder_id, amount}])]: the
    columns the client leaves out take their defaults, [gen_random_uuid()]
    (the value drawn is the argument [new_id]) and [now()]. *)
Definition bid_with_defaults (now : timestamptz) (new_id auction bidder : uuid)
    (amt : decimal) : bid :=
  {| b_id := new_id; auction_id := auction; bidder_id := bidder; amount := amt;
     created_at := Some now; updated_at := Some now |}.

(** [INSERT INTO public.bids] by the caller [uid] at time [now]: the row is
    appended when the policy accepts it, and the statement raises
    otherwise. *)
Definition insert_bid (uid : auth_uid) (now : timestamptz) (row : bid)
    (db : database) : option database :=
  if users_can_create_bids uid now db row
  then Some (set_bids (λ bs, bs ++ [row]) db)
  else None.

End Policy.

(** ** The triggers as they are installed *)

Module Installed.

Import Settlement Lifecycle Policy.

(** The errors that the statements below raise, by SQLSTATE: 54001 (the
    nesting of trigger activations has used up the server's stack), 23502,
    21000 (a scalar subquery returned more than one row), 23505 and 42501
    (the new row violates a row-level-security policy). *)
Inductive sqlstate :=
| stack_depth_exceeded
| not_null_violation
| cardinality_violation
| unique_violation
| insufficient_privilege.

(** A statement either ends, leaving a database, or raises. *)
Inductive result (A : Type) :=
| Done (a : A)
| Raised (e : sqlstate).

Arguments Done {A} a.
Arguments Raised {A} e.

#[global] Instance result_bind : MBind result :=
  λ A B f x, match x with Done a => f a | Raised e => Raised e end.

Definition of_option {A} (e : sqlstate) (x : option A) : result A :=
  match x with
  | Some a => Done a
  | None => Raised e
  end.

(** Who runs a statement: a client of the API with its [auth.uid()]
    ([authenticated], or [anon] when it has none), to whom the policies
    apply, or a role to which they do not apply ([service_role], or the
    owner of the tables).  The trigger functions are not
    [SECURITY DEFINER]: their statements run as the role that ran the
    statement which fired them. *)
Inductive role :=
| client (uid : auth_uid)
| service_role.

(** How an [UPDATE public.auctions SET ... WHERE ...] issued by a trigger
    function is run: the rows it is to change, what it sets, and the
    database. *)
Definition UPDATE : Type :=
  (auction → bool) → (auction → auction) → database → result database.

(** The two [INSERT INTO public.notifications] of
    [determine_auction_winner]. *)
Definition notify_winner_and_seller (NEW : auction) (wb : bid) (db1 : database)
    : result database :=
  item ← of_option cardinality_violation (product_column title NEW db1);
  db2 ← of_option not_null_violation
          (insert_notification (Some (bidder_id wb)) (Some "Auction Won!")
             (concat_text (Some "Congratulations! You won the auction for item: ") item)
             db1);
  seller ← of_option cardinality_violation (product_column seller_id NEW db2);
  of_option not_null_violation
    (insert_notification seller (Some "Auction Ended")
       (concat_text (Some "Your auction has ended with a winning bid of $")
          (Some (pretty (amount wb))))
       db2).

(** The trigger function [determine_auction_winner], for an update that
    replaced the row [OLD] by [NEW]; [update] runs the [UPDATE] it
    issues. *)
Definition determine_auction_winner (update : UPDATE) (OLD NEW : auction)
    (db : database) : result database :=
  if bool_decide (status NEW = Some ended) && bool_decide (status OLD = Some active) then
    let winning_bid := select_winning_bid NEW db in
    if record_is_not_null winning_bid then
      match winning_bid with
      | Some wb =>
          db1 ← update (λ a, bool_decide (a_id a = a_id NEW)) (set_winner wb) db;
          notify_winner_and_seller NEW wb db1
      | None => Done db
      end
    else Done db
  else Done db.

(** The trigger function [check_auction_status], for the inserted or
    updated row [NEW]: [UPDATE public.auctions SET status = CASE ... END
    WHERE id = NEW.id]. *)
Definition check_auction_status (update : UPDATE) (now : timestamptz)
    (NEW : auction) (db : database) : result database :=
  update (λ a, bool_decide (a_id a = a_id NEW))
    (λ a, set_status (status_by_clock now a) a) db.

(** The AFTER UPDATE row triggers on [auctions], fired when the statement
    has changed its rows: for each changed row in turn,
    [determine_winner_trigger] and then [update_auction_status] (triggers
    of one kind fire in the order of their names). *)
Fixpoint after_update (update : UPDATE) (now : timestamptz)
    (changed : list (auction * auction)) (db : database) : result database :=
  match changed with
  | [] => Done db
  | (OLD, NEW) :: rest =>
      db1 ← determine_auction_winner update OLD NEW db;
      db2 ← check_auction_status update now NEW db1;
      after_update update now rest db2
  end.

(** [UPDATE public.auctions SET ... WHERE ...] run by [r] at transaction
    time [now] (the value of [now()] in every statement nested in it).
    [auctions] has row-level security and no policy for UPDATE, so for a
    client no row qualifies.  For a role that the policies do not bind
    the qualifying rows are written and the row triggers fire; the
    statements of the trigger functions run the same way, one level
    deeper.  [depth] is the number of nested levels the server's stack
    still holds: a statement that starts with none left is refused with
    54001.  The new rows are taken to meet the constraints of the table
    (its primary and foreign keys); a statement refused by a constraint is
    not modelled. *)
Fixpoint update_auctions (depth : nat) (r : role) (now : timestamptz)
    (cond : auction → bool) (set : auction → auction) (db : database)
    : result database :=
  match depth with
  | O => Raised stack_depth_exceeded
  | S depth =>
      match r with
      | client _ => Done db
      | service_role =>
          after_update (update_auctions depth r now) now
            ((λ OLD, (OLD, set OLD)) <$> filter (λ a, cond a) (auctions db))
            (set_auctions (update_where cond set) db)
      end
  end.

(** The database after a statement: a statement that raises is rolled
    back. *)
Definition commit (db : database) (r : result database) : database :=
  match r with
  | Done db' => db'
  | Raised _ => db
  end.

(** ["Sellers can create auctions" FOR INSERT TO authenticated WITH CHECK
     (EXISTS (SELECT 1 FROM public.products
              WHERE id = product_id AND seller_id = auth.uid()))]. *)
Definition sellers_can_create_auctions (uid : auth_uid) (db : database)
    (row : auction) : bool :=
  existsb (λ p, bool_decide (p_id p = product_id row)
                && bool_decide (Some (seller_id p) = uid))
          (select_products uid db).

(** [INSERT INTO public.auctions] of one row by a client: the policy is
    checked on the new row, then the primary key, and the AFTER INSERT row
    trigger [update_auction_status] runs [check_auction_status] for the
    row.  (The product exists by the policy; [winner_id] refers to
    [auth.users], which is not part of this schema, and is taken to name a
    user.) *)
Definition insert_auction (depth : nat) (uid : auth_uid) (now : timestamptz)
    (row : auction) (db : database) : result database :=
  if sellers_can_create_auctions uid db row then
    if bool_decide (a_id row ∈ a_id <$> auctions db) then Raised unique_violation
    else
      check_auction_status (update_auctions depth (client uid) now) now row
        (set_auctions (λ rows, rows ++ [row]) db)
  else Raised insufficient_privilege.

(** The statements considered: an insert into [auctions] or into [bids] by
    a client, under the policies, and an update of [auctions] by any role.
    (No policy lets a client update or delete a row of [auctions] or of
    [bids].  Statements on [products] and on [notifications], and inserts
    and deletes by a role that the policies do not bind, are not among
    them.) *)
Inductive statement :=
| InsertAuction (uid : auth_uid) (row : auction)
| InsertBid (uid : auth_uid) (row : bid)
| UpdateAuctions (r : role) (cond : auction → bool) (set : auction → auction).

Definition exec (depth : nat) (now : timestamptz) (s : statement) (db : database)
    : result database :=
  match s with
  | InsertAuction uid row => insert_auction depth uid now row db
  | InsertBid uid row => of_option insufficient_privilege (insert_bid uid now row db)
  | UpdateAuctions r cond set => update_auctions depth r now cond set db
  end.

(** Statements run one after the other, each in its own transaction at
    its own time. *)
Definition run (depth : nat) (db : database) (steps : list (timestamptz * statement))
    : database :=
  foldl (λ db x, commit db (exec depth x.1 x.2 db)) db steps.


End Installed.

(** ** The auction page: [AuctionDetail.tsx] *)

Module Page.

Import Policy.

(** The signed-in user of [useAuth]; only [user.id] is read. *)
Record User := { u_id : uuid }.

(** [interface Auction] with its embedded [product]; [description] and
    [sealed_bidding] are read by no code below and are left out. *)
Record Product := {
  P_id : uuid;
  P_title : text;
  P_images : option (list text);
  P_seller_id : uuid
}.

Record Auction := {
  A_id : uuid;
  A_product : option Product;
  A_start_price : Z;
  A_end_time : timestamptz;
  A_status : option auction_status;
  highest_bid : option Z
}.

(** The component's state: the route parameter [id], [user] and the four
    [useState] cells. *)
Record state := {
  route_id : uuid;
  user : option User;
  auction : option Auction;
  loading : bool;
  error : option string;
  bidAmount : Z
}.

Definition setAuction (a : option Auction) (st : state) : state :=
  {| route_id := route_id st; user := user st; auction := a;
     loading := loading st; error := error st; bidAmount := bidAmount st |}.

Definition setLoading (b : bool) (st : state) : state :=
  {| route_id := route_id st; user := user st; auction := auction st;
     loading := b; error := error st; bidAmount := bidAmount st |}.

Definition setError (e : option string) (st : state) : state :=
  {| route_id := route_id st; user := user st; auction := auction st;
     loading := loading st; error := e; bidAmount := bidAmount st |}.

Definition setBidAmount (n : Z) (st : state) : state :=
  {| route_id := route_id st; user := user st; auction := auction st;
     loading := loading st; error := error st; bidAmount := n |}.

(** [x || y] on numbers: [y] when [x] is [undefined] or [0]. *)
Definition js_or (x : option Z) (y : Z) : Z :=
  match x with
  | Some v => if v =? 0 then y else v
  | None => y
  end.

(** [.single()]: the row when exactly one is returned, an error otherwise. *)
Definition single {A} (rows : list A) : option A :=
  match rows with
  | [x] => Some x
  | _ => None
  end.

(** [product:product_id (id, title, description, images, seller_id)]. *)
Definition embed_product (uid : auth_uid) (db : database)
    (data : Schema.auction) : option Product :=
  (λ p, {| P_id := p_id p; P_title := title p; P_images := images p;
           P_seller_id := seller_id p |})
    <$> head (filter (λ p, p_id p = product_id data) (select_products uid db)).

(** The session of the page is that of [user]: its queries are answered
    under the policies with [auth.uid() = user.id]. *)
Definition session (st : state) : auth_uid := u_id <$> user st.

(** The rows of [bids] for the page's auction that its session may read. *)
Definition readable_bids (st : state) (db : database) : list bid :=
  filter (λ b, auction_id b = route_id st) (select_bids (session st) db).

(** [from('bids').select('amount').eq('auction_id', id)
     .order('amount', { ascending: false }).limit(1)]. *)
Definition select_top_bid (st : state) (db : database) : option bid :=
  order_by_amount_desc_limit_1 (readable_bids st db).

(** [.from('auctions').select(...).eq('id', id).single()]. *)
Definition select_auction (st : state) (db : database) : option Schema.auction :=
  single (filter (λ a, a_id a = route_id st) (select_auctions (session st) db)).

Definition fetchAuctionDetails (db : database) (st : state) : state :=
  match select_auction st db with
  | None => setLoading false (setError (Some "Failed to fetch auction details") st)
  | Some data =>
      let bids := select_top_bid st db in
      let formattedData :=
        {| A_id := a_id data;
           A_product := embed_product (session st) db data;
           A_start_price := start_price data;
           A_end_time := end_time data;
           A_status := status data;
           highest_bid :=
             Some (match bids with Some b => amount b | None => start_price data end) |} in
      setLoading false
        (setBidAmount (match bids with Some b => amount b + 1 | None => start_price data end)
           (setAuction (Some formattedData) st))
  end.

(** [auction.product.images[0]]: a [TypeError] ([None]) when [product] or
    [images] is null. *)
Definition icon (a : Auction) : option (option text) :=
  p ← A_product a; imgs ← P_images p; Some (head imgs).

(** [handleBidSubmit] at server time [now]; [new_id] is the id the server
    draws for the row.  The result is the component state and the
    database.  A caught error is shown with its own message when it is an
    [Error] and with the fallback text otherwise; for the error object of a
    refused insert the model keeps the fallback text. *)
Definition handleBidSubmit (now : timestamptz) (new_id : uuid)
    (db : database) (st : state) : state * database :=
  match user st with
  | None => (setError (Some "Please sign in to place a bid") st, db)
  | Some u =>
      match auction st with
      | None =>
          (setError (Some "Bid amount must be higher than the current highest bid") st, db)
      | Some a =>
          if bidAmount st <=? js_or (highest_bid a) (A_start_price a) then
            (setError (Some "Bid amount must be higher than the current highest bid") st, db)
          else
            match insert_bid (session st) now
                    (bid_with_defaults now new_id (route_id st) (u_id u) (bidAmount st))
                    db with
            | None => (setError (Some "Failed to place bid") st, db)
            | Some db' =>
                match icon a with
                | None =>
                    (setError (Some "Cannot read properties of null (reading 'images')") st,
                     db')
                | Some _ => (setError None (fetchAuctionDetails db' st), db')
                end
            end
      end
  end.

Definition with_highest_bid (h : option Z) (a : Auction) : Auction :=
  {| A_id := A_id a; A_product := A_product a; A_start_price := A_start_price a;
     A_end_time := A_end_time a; A_status := A_status a; highest_bid := h |}.

Section BidEvents.

(** The payload of a change on [bids] is [any] in the source.  The callback
    reads [payload.eventType] and [payload.new.amount] from it; what else the
    realtime service puts into a payload is not decided by this code. *)
Context {payload : Type} (eventType : payload → string) (new_amount : payload → Z).

(** The callback given to [subscribeToAuction]:
    [if (payload.eventType === 'INSERT') setAuction(prev => prev ? {...prev,
     highest_bid: Math.max(payload.new.amount, prev.highest_bid || 0)} : null)]. *)
Definition onBidUpdate (p : payload) (st : state) : state :=
  if bool_decide (eventType p = "INSERT") then
    setAuction
      ((λ prev, with_highest_bid
                  (Some (Z.max (new_amount p) (js_or (highest_bid prev) 0))) prev)
         <$> auction st)
      st
  else st.

End BidEvents.

(** The tests of the render before its [return]: [if (loading)] a spinner,
    [if (error)] the message (an empty string counts as no error),
    [if (!auction)] a notice; otherwise the bid form is in the JSX returned
    unless [isEnded], computed on the browser's clock as
    [new Date(auction.end_time) < new Date()].  That JSX also reads
    [auction.product.images], which throws when the product is missing:
    [PageMore.form_on_screen] adds it. *)
Definition error_shown (st : state) : bool :=
  match error st with
  | Some e => negb (bool_decide (e = ""))
  | None => false
  end.

Definition form_shown (client_now : timestamptz) (st : state) : bool :=
  negb (loading st) && negb (error_shown st) &&
  match auction st with
  | Some a => negb (A_end_time a <? client_now)
  | None => false
  end.

(** One use of the form that runs to its end before anything else
    happens: the user types [amount] and presses the button, at browser
    time [client_now] and server time [now]; nothing happens when the form
    is not on screen.  ([handleBidSubmit] is [async] and the button is
    disabled by [!user] only, so a page can also start a second run from
    the state of the same render: such runs are applications of
    [handleBidSubmit] to one state, not steps of this function.) *)
Record input := {
  client_now : timestamptz;
  server_now : timestamptz;
  drawn_id : uuid;
  typed : Z
}.

Definition submit (w : database * state) (i : input) : database * state :=
  if form_shown (client_now i) w.2 then
    let r := handleBidSubmit (server_now i) (drawn_id i) w.1 (setBidAmount (typed i) w.2) in
    (r.2, r.1)
  else w.

(** What the bid callback reads of a payload it receives. *)
Record bid_event := { ev_type : string; ev_amount : Z }.

(** What happens to an open page: the form is used, or a change on [bids]
    arrives on the page's channel. *)
Inductive step :=
| Use (i : input)
| Receive (e : bid_event).

Definition run_step (w : database * state) (x : step) : database * state :=
  match x with
  | Use i => submit w i
  | Receive e => (w.1, onBidUpdate ev_type ev_amount e w.2)
  end.

(** One visit of the page by one user: the page is loaded, then the steps
    happen in turn, one at a time.  Loads of the page other than the first
    and the one that ends a stored bid are not among the steps. *)
Definition visit (db : database) (st : state) (steps : list step)
    : database * state :=
  foldl run_step (db, fetchAuctionDetails db st) steps.

End Page.

(** ** [WebSocketService] *)

Module WebSocket.

Section Service.

(** The payload is [any] in the source and the service never looks
    inside it; [R] is what a callback computes. *)
Context {payload R : Type}.

(** A channel object of the realtime client: its topic and the handler
    registered with [.on('postgres_changes', ...)]. *)
Record RealtimeChannel := {
  topic : string;
  handler : payload → R
}.

(** [channels] is the service's [Map]; it holds references to channel
    objects.  [subscribed] are the channel objects that are subscribed,
    by reference; [created] counts the objects created so far, so that
    each call of [supabase.channel] yields a new reference. *)
Record service := {
  channels : gmap string nat;
  subscribed : gmap nat RealtimeChannel;
  created : nat
}.

Definition empty_service : service :=
  {| channels := ∅; subscribed := ∅; created := 0%nat |}.

Definition unsubscribeFromChannel (channelKey : string) (s : service) : service :=
  match channels s !! channelKey with
  | Some channel =>
      {| channels := delete channelKey (channels s);
         subscribed := delete channel (subscribed s);
         created := created s |}
  | None => s
  end.

Definition unsubscribeFromAuction (auctionId : string) (s : service) : service :=
  unsubscribeFromChannel ("auction:" +:+ auctionId) s.

(** [supabase.channel(name).on(...).subscribe()] followed by
    [this.channels.set(key, channel)]. *)
Definition open_channel (key name : string) (h : payload → R) (s : service) : service :=
  {| channels := <[key := created s]> (channels s);
     subscribed := <[created s := {| topic := name; handler := h |}]> (subscribed s);
     created := S (created s) |}.

(** Both subscribe methods return the new state of the service and the
    unsubscribe function. *)
Definition subscribeToAuction (auctionId : string) (onUpdate : payload → R)
    (s : service) : service * (service → service) :=
  (open_channel auctionId ("auction:" +:+ auctionId) (λ payload, onUpdate payload) s,
   unsubscribeFromAuction auctionId).

Definition subscribeToAuctionStatus (auctionId : string) (onStatusChange : payload → R)
    (s : service) : service * (service → service) :=
  let channelKey := "auction-status:" +:+ auctionId in
  (open_channel channelKey channelKey (λ payload, onStatusChange payload) s,
   unsubscribeFromChannel channelKey).

(** What the realtime client does with a change it receives on a
    channel: it calls the channel's handler, if the channel is
    subscribed. *)
Definition deliver (channel : nat) (p : payload) (s : service) : option R :=
  (λ c, handler c p) <$> subscribed s !! channel.

(** Every reference held in [channels] is to a channel object that has
    been created. *)
Definition well_formed (s : service) : Prop :=
  ∀ k c, channels s !! k = Some c → (c < created s)%nat.

(** The channel object [c] is subscribed and no entry of [channels]
    refers to it. *)
Definition orphaned (c : nat) (s : service) : Prop :=
  (c < created s)%nat ∧ is_Some (subscribed s !! c) ∧
  ∀ k, channels s !! k ≠ Some c.

(** The calls a user of the service can make after it has been handed
    some unsubscribe functions. *)
Inductive call :=
| SubscribeToAuction (auctionId : string) (onUpdate : payload → R)
| SubscribeToAuctionStatus (auctionId : string) (onStatusChange : payload → R)
| UnsubscribeAuction (auctionId : string)
| UnsubscribeStatus (auctionId : string).

Definition run_call (s : service) (c : call) : service :=
  match c with
  | SubscribeToAuction i f => (subscribeToAuction i f s).1
  | SubscribeToAuctionStatus i f => (subscribeToAuctionStatus i f s).1
  | UnsubscribeAuction i => unsubscribeFromAuction i s
  | UnsubscribeStatus i => unsubscribeFromChannel ("auction-status:" +:+ i) s
  end.

End Service.

End WebSocket.

(** ** The settlement rule in the words of the specification *)

Module Spec.

(** Earliest creation timestamp first; a missing timestamp comes last. *)
Definition earlier (x y : option timestamptz) : comparison :=
  match x, y with
  | Some a, Some b => a ?= b
  | Some _, None => Lt
  | None, Some _ => Gt
  | None, None => Eq
  end.

(** [b] is preferred to [c]: a greater amount, then an earlier creation
    timestamp, then the smaller bid id. *)
Definition preferred (b c : bid) : bool :=
  (amount c <? amount b) ||
  ((amount b =? amount c) &&
   match earlier (created_at b) (created_at c) with
   | Lt => true
   | Eq => String.leb (b_id b) (b_id c)
   | Gt => false
   end).

(** "Among all bids for the auction, select the one with the maximum amount;
    tie-break by earliest creation timestamp, then by bid id." *)
Fixpoint winner_by_spec (rows : list bid) : option bid :=
  match rows with
  | [] => None
  | b :: rest =>
      match winner_by_spec rest with
      | Some c => if preferred b c then Some b else Some c
      | None => Some b
      end
  end.

(** The row that the settlement of an update to [NEW] selects is the one
    the specification names. *)
Definition selects_as_specified (NEW : auction) (db : database) : Prop :=
  Settlement.select_winning_bid NEW db
  = winner_by_spec (filter (λ b, auction_id b = a_id NEW) (bids db)).


(** "No bid is admitted whose creation time is >= the auction's end_time":
    a row that the insert policy admits has a creation time before the end
    time of its auction. *)
Definition created_before_end_time (uid : Policy.auth_uid) (now : timestamptz)
    (row : bid) (db : database) : Prop :=
  ∀ db' a t,
    Policy.insert_bid uid now row db = Some db' →
    a ∈ auctions db → a_id a = auction_id row →
    created_at row = Some t → t < end_time a.

(** "The amount must strictly exceed the current highest accepted amount":
    a bid that [handleBidSubmit] stores exceeds every bid stored before it
    for the same auction. *)
Definition exceeds_current_highest (now : timestamptz) (new_id : uuid)
    (db : database) (st : Page.state) : Prop :=
  ∀ b c, b ∈ bids (Page.handleBidSubmit now new_id db st).2 → b ∉ bids db →
         c ∈ bids db → auction_id c = auction_id b → amount c < amount b.

(** "Bidder must not be the item's seller": a submission by the seller of
    the item stores nothing and reports an error. *)
Definition self_bid_is_rejected (now : timestamptz) (new_id : uuid)
    (db : database) (st : Page.state) : Prop :=
  ∀ u a p,
    Page.user st = Some u → Page.auction st = Some a →
    Page.A_product a = Some p → Page.P_seller_id p = Page.u_id u →
    (Page.handleBidSubmit now new_id db st).2 = db ∧
    is_Some (Page.error (Page.handleBidSubmit now new_id db st).1).

(** "The sequence of accepted bids ordered by admission is strictly
    increasing in amount." *)
Definition accepted_strictly_increasing (i : uuid) (db : database) : Prop :=
  StronglySorted Z.lt (amount <$> filter (λ b, auction_id b = i) (bids db)).

End Spec.

(** ** Concrete auctions *)

Module Scenario.

Definition lamp : product :=
  {| p_id := "p1"; seller_id := "sam"; title := "Lamp"; images := Some ["lamp.png"] |}.

(** Start price 100, open from 0 to 1000. *)
Definition lamp_auction (s : auction_status) : auction :=
  {| a_id := "a1"; product_id := "p1"; start_price := 100; start_time := 0;
     end_time := 1000; status := Some s; winner_id := None; winning_bid_id := None |}.

Definition bid_of (i bidder : uuid) (amt : decimal) (t : timestamptz) : bid :=
  {| b_id := i; auction_id := "a1"; bidder_id := bidder; amount := amt;
     created_at := Some t; updated_at := Some t |}.

Definition lamp_db (s : auction_status) (bs : list bid) : database :=
  {| products := [lamp]; auctions := [lamp_auction s]; bids := bs; notifications := [] |}.

Definition alice_150 : bid := bid_of "b1" "alice" 150 990.
Definition bob_150 : bid := bid_of "b2" "bob" 150 995.

(** A fresh page on the lamp auction for a signed-in user. *)
Definition page_of (who : uuid) : Page.state :=
  {| Page.route_id := "a1"; Page.user := Some {| Page.u_id := who |};
     Page.auction := None; Page.loading := true; Page.error := None;
     Page.bidAmount := 0 |}.



Definition at_time (t : timestamptz) (i : uuid) (amt : Z) : Page.input :=
  {| Page.client_now := t; Page.server_now := t; Page.drawn_id := i; Page.typed := amt |}.

End Scenario.

(** ** More of the auction page: the status callback, the form's minimum
       and the subscription effect *)

Module PageMore.

Import Policy Page WebSocket.

Definition with_status (x : option auction_status) (a : Auction) : Auction :=
  {| A_id := A_id a; A_product := A_product a; A_start_price := A_start_price a;
     A_end_time := A_end_time a; A_status := x; highest_bid := highest_bid a |}.

Section StatusEvents.

(** The callback given to [subscribeToAuctionStatus] reads
    [payload.eventType], [payload.old.status] and [payload.new.status]. *)
Context {payload : Type} (eventType : payload → string)
  (old_status new_status : payload → option auction_status).

(** [if (payload.eventType === 'UPDATE' && payload.old.status === 'active' &&
         payload.new.status === 'ended')
       setAuction(prev => prev ? {...prev, status: 'ended'} : null)].
    The browser notification that follows for a sealed auction does not
    touch the component's state and is left out. *)
Definition onStatusChange (p : payload) (st : state) : state :=
  if bool_decide (eventType p = "UPDATE")
     && bool_decide (old_status p = Some active)
     && bool_decide (new_status p = Some ended)
  then setAuction (with_status (Some ended) <$> auction st) st
  else st.

End StatusEvents.

Section BidEvents.

Context {payload : Type} (eventType : payload → string) (new_amount : payload → Z).

(** The changes on [bids] that arrive on the page's channel, handed to the
    bid callback in turn. *)
Definition receive (st : state) (es : list payload) : state :=
  foldl (λ st p, onBidUpdate eventType new_amount p st) st es.

End BidEvents.

(** What the render needs beyond [form_shown]: it reads
    [auction.product.images] (handed to [ImageCarousel], which reads
    [images[currentIndex]] and [images.length]) and [auction.product.title],
    and throws when the product or its images are null.  The form is on
    screen when [form_shown] holds and the render does not throw. *)
Definition form_on_screen (client_now : timestamptz) (st : state) : bool :=
  form_shown client_now st &&
  match auction st with
  | Some a => bool_decide (is_Some (icon a))
  | None => false
  end.

Section Effect.

Context {payload R : Type}.

(** The subscriptions of the [useEffect]: with a non-empty [id] it
    subscribes to the bids and to the status of the auction and returns the
    cleanup [() => { unsubscribeBids(); unsubscribeStatus(); }]; with an
    empty [id] it does nothing and has no cleanup. *)
Definition effect (id : string) (onBid onStatus : payload → R)
    (s : @service payload R) : @service payload R * (@service payload R → @service payload R) :=
  if bool_decide (id = "") then (s, λ s', s')
  else
    let unsubscribeBids := subscribeToAuction id onBid s in
    let unsubscribeStatus := subscribeToAuctionStatus id onStatus unsubscribeBids.1 in
    (unsubscribeStatus.1, λ s', unsubscribeStatus.2 (unsubscribeBids.2 s')).

(** The effect run [n] times, each run preceded by the cleanup of the one
    before, and the last cleanup run on unmount. *)
Fixpoint effect_cycles (n : nat) (id : string) (onBid onStatus : payload → R)
    (s : @service payload R) : @service payload R :=
  match n with
  | O => s
  | S n =>
      let r := effect id onBid onStatus (effect_cycles n id onBid onStatus s) in
      r.2 r.1
  end.

(** Every entry of [channels] refers to a subscribed channel, no two entries
    refer to the same channel, and every subscribed channel is one that was
    created. *)
Definition consistent (s : @service payload R) : Prop :=
  (∀ k c, channels s !! k = Some c → is_Some (subscribed s !! c)) ∧
  (∀ k1 k2 c, channels s !! k1 = Some c → channels s !! k2 = Some c → k1 = k2) ∧
  (∀ c, is_Some (subscribed s !! c) → (c < created s)%nat).

End Effect.

End PageMore.

(** ** [ImageCarousel] *)

Module ImageCarousel.

(** [a % n] on integers: [NaN] ([None]) when [n] is 0, otherwise the
    remainder with the sign of [a]. *)
Definition js_mod (a n : Z) : option Z :=
  if n =? 0 then None else Some (Z.rem a n).

(** [currentIndex] is a number, [NaN] included. *)
Definition index := option Z.

(** [setCurrentIndex((prev) => (prev + 1) % images.length)]. *)
Definition next (images : list text) (prev : index) : index :=
  i ← prev; js_mod (i + 1) (Z.of_nat (length images)).

(** [setCurrentIndex((prev) => (prev - 1 + images.length) % images.length)]. *)
Definition previous (images : list text) (prev : index) : index :=
  i ← prev; js_mod (i - 1 + Z.of_nat (length images)) (Z.of_nat (length images)).

Definition fallback : text :=
  "https://images.unsplash.com/photo-1523275335684-37898b6baf30".

(** [images[currentIndex]]: [undefined] outside the array and for [NaN]. *)
Definition at_index (images : list text) (i : index) : option text :=
  j ← i; if j <? 0 then None else images !! Z.to_nat j.

(** [images[currentIndex] || fallback]: the empty string counts as absent. *)
Definition src (images : list text) (i : index) : text :=
  match at_index images i with
  | Some u => if bool_decide (u = "") then fallback else u
  | None => fallback
  end.

(** The arrows and the dots are rendered when [images.length > 1]. *)
Definition arrows_shown (images : list text) : bool :=
  1 <? Z.of_nat (length images).

(** What the user can press: the two arrows and the dots, one dot for each
    image; all of them are rendered only when [images.length > 1], and the
    dot of [index] runs [setCurrentIndex(index)]. *)
Inductive click := Next | Previous | Dot (k : nat).

Definition press (images : list text) (i : index) (c : click) : index :=
  if arrows_shown images then
    match c with
    | Next => next images i
    | Previous => previous images i
    | Dot k => if bool_decide (k < length images)%nat then Some (Z.of_nat k) else i
    end
  else i.

(** [useState(0)], then the presses in turn. *)
Definition currentIndex (images : list text) (cs : list click) : index :=
  foldl (press images) (Some 0) cs.

End ImageCarousel.

(** ** [NotificationService] *)

Module NotificationService.

(** What the browser does when asked: whether it has a [Notification] API,
    and whether [Notification.requestPermission()] resolves to
    ["granted"]. *)
Record browser := { supported : bool; grants : bool }.

(** One call, from the value of the static [hasPermission]: the new value
    of [hasPermission], whether the browser was asked, and whether a
    notification was constructed. *)
Record outcome := { hasPermission : bool; asked : bool; shown : bool }.

(** [requestPermission]: returns at once on a browser without the API;
    otherwise [this.hasPermission = permission === "granted"]. *)
Definition requestPermission (b : browser) (has : bool) : bool * bool :=
  if supported b then (grants b, true) else (has, false).

(** [showNotification]: asks when [hasPermission] is false, then constructs
    the notification when [hasPermission] is true. *)
Definition showNotification (b : browser) (has : bool) : outcome :=
  let r := if has then (has, false) else requestPermission b has in
  {| hasPermission := r.1; asked := r.2; shown := r.1 |}.

(** Successive calls, each under what the browser does at that time. *)
Fixpoint showNotifications (bs : list browser) (has : bool) : list outcome :=
  match bs with
  | [] => []
  | b :: rest =>
      let o := showNotification b has in
      o :: showNotifications rest (hasPermission o)
  end.

End NotificationService.

(** ** The dashboard: [Dashboard.tsx], the bids of the signed-in user *)

Module Dashboard.

Import Policy.

(** [product:product_id (title, images)]. *)
Record Product := { P_title : text; P_images : option (list text) }.

(** [auction:auction_id (id, status, end_time, winner_id, product)]. *)
Record Embedded := {
  E_id : uuid;
  E_status : option auction_status;
  E_end_time : timestamptz;
  E_winner_id : option uuid;
  E_product : option Product
}.

(** A row of the query on [bids]: [id, amount, created_at, auction]. *)
Record Row := {
  R_id : uuid;
  R_amount : Z;
  R_created_at : option timestamptz;
  R_auction : option Embedded
}.

(** [interface Bid] and its [auction]. *)
Record BidAuction := {
  BA_id : uuid;
  BA_product : option Product;
  BA_end_time : timestamptz;
  BA_status : option auction_status
}.

Record Bid := {
  B_id : uuid;
  B_auction : BidAuction;
  B_amount : Z;
  B_created_at : option timestamptz;
  is_winning : bool
}.

(** An entry of [wonAuctions], with the fields that are set for it. *)
Record Won := {
  W_id : uuid;
  W_product : option Product;
  W_end_time : timestamptz;
  W_status : auction_status;
  W_highest_bid : Z;
  W_is_winner : bool
}.

(** [.order('created_at', { ascending: false })]: later rows first, rows
    without a timestamp before the others. *)
Definition created_at_desc (x y : bid) : Prop :=
  match created_at x, created_at y with
  | None, _ => True
  | Some _, None => False
  | Some a, Some b => b ≤ a
  end.

#[global] Instance created_at_desc_dec (x y : bid) : Decision (created_at_desc x y).
Proof. unfold created_at_desc. destruct (created_at x), (created_at y); apply _. Defined.

Definition embed (uid : auth_uid) (db : database) (b : bid) : option Embedded :=
  (λ a, {| E_id := a_id a; E_status := status a; E_end_time := end_time a;
           E_winner_id := winner_id a;
           E_product :=
             (λ p, {| P_title := title p; P_images := images p |})
               <$> List.find (λ p, bool_decide (p_id p = product_id a))
                     (select_products uid db) |})
    <$> List.find (λ a, bool_decide (a_id a = auction_id b)) (select_auctions uid db).

(** [from('bids').select(...).eq('bidder_id', user.id)
     .order('created_at', { ascending: false })], answered under the
    policies for the session of [user]. *)
Definition select_my_bids (u : uuid) (db : database) : list Row :=
  (λ b, {| R_id := b_id b; R_amount := amount b; R_created_at := created_at b;
           R_auction := embed (Some u) db b |})
    <$> merge_sort created_at_desc
          (filter (λ b, bidder_id b = u) (select_bids (Some u) db)).

(** One step of [(bids || []).map(bid => ...)]: reading [bid.auction.id]
    raises a [TypeError] ([None]) when the embedded auction is null. *)
Definition process (u : uuid) (bid : Row) : option Bid :=
  a ← R_auction bid;
  Some {| B_id := R_id bid;
          B_auction := {| BA_id := E_id a; BA_product := E_product a;
                          BA_end_time := E_end_time a; BA_status := E_status a |};
          B_amount := R_amount bid;
          B_created_at := R_created_at bid;
          is_winning := bool_decide (E_winner_id a = Some u) |}.

Definition won_entry (bid : Bid) : Won :=
  {| W_id := BA_id (B_auction bid); W_product := BA_product (B_auction bid);
     W_end_time := BA_end_time (B_auction bid); W_status := ended;
     W_highest_bid := B_amount bid; W_is_winner := true |}.

Record state := {
  myBids : list Bid;
  wonAuctions : list Won;
  loading : bool;
  error : option string
}.

(** [fetchDashboardData] for the signed-in user [u], from [isBuyer] on.
    The branch for sellers before it writes [myAuctions] alone and is left
    out. *)
Definition fetchDashboardData (isBuyer : bool) (u : uuid) (db : database)
    (st : state) : state :=
  if isBuyer then
    match mapM (process u) (select_my_bids u db) with
    | Some processedBids =>
        let won :=
          filter (λ bid, is_winning bid
                         && bool_decide (BA_status (B_auction bid) = Some ended))
            processedBids in
        {| myBids := processedBids; wonAuctions := won_entry <$> won;
           loading := false; error := error st |}
    | None =>
        {| myBids := myBids st; wonAuctions := wonAuctions st;
           loading := false; error := Some "Failed to load dashboard data" |}
    end
  else
    {| myBids := myBids st; wonAuctions := wonAuctions st;
       loading := false; error := error st |}.

(** The bids of [u] on auctions that are stored as ended with [u] as the
    winner. *)
Definition bid_of_the_winner (u : uuid) (db : database) (b : bid) : bool :=
  bool_decide (bidder_id b = u) &&
  match lookup_auction db (auction_id b) with
  | Some a => bool_decide (winner_id a = Some u) && bool_decide (status a = Some ended)
  | None => false
  end.

(** What a processed bid keeps of the stored bid it was made from. *)
Definition made_from (u : uuid) (db : database) (b : bid) (B : Bid) : Prop :=
  BA_id (B_auction B) = auction_id b ∧ B_amount B = amount b ∧
  is_winning B && bool_decide (BA_status (B_auction B) = Some ended)
  = match lookup_auction db (auction_id b) with
    | Some a => bool_decide (winner_id a = Some u) && bool_decide (status a = Some ended)
    | None => false
    end.

End Dashboard.

(** * Properties *)

(** ** The query [ORDER BY amount DESC LIMIT 1] *)

Module QueryFacts.

Lemma top_is_some (rows : list bid) :
  rows ≠ [] → is_Some (order_by_amount_desc_limit_1 rows).
Proof.
  destruct rows as [|b rest]; [done|]; intros _; simpl.
  destruct (order_by_amount_desc_limit_1 rest) as [c|]; [|by eexists].
  destruct (amount b <? amount c); by eexists.
Qed.

Lemma top_none (rows : list bid) :
  order_by_amount_desc_limit_1 rows = None → rows = [].
Proof.
  destruct rows as [|b rest]; [done|]; intros H.
  destruct (top_is_some (b :: rest)) as [x Hx]; [done|]; congruence.
Qed.

Lemma top_elem (rows : list bid) (w : bid) :
  order_by_amount_desc_limit_1 rows = Some w → w ∈ rows.
Proof.
  revert w; induction rows as [|b rest IH]; intros w; simpl; [done|].
  destruct (order_by_amount_desc_limit_1 rest) as [c|].
  - destruct (amount b <? amount c); intros [= <-].
    + right; by apply IH.
    + left.
  - intros [= <-]; left.
Qed.

Lemma top_is_greatest (rows : list bid) (w : bid) :
  order_by_amount_desc_limit_1 rows = Some w →
  ∀ b, b ∈ rows → amount b ≤ amount w.
Proof.
  revert w; induction rows as [|b rest IH]; intros w; simpl.
  - intros _ x Hx; by apply elem_of_nil in Hx.
  - destruct (order_by_amount_desc_limit_1 rest) as [c|] eqn:Hc.
    + destruct (amount b <? amount c) eqn:Hlt; intros [= <-] x Hx;
        apply elem_of_cons in Hx as [->|Hx].
      * apply Z.ltb_lt in Hlt; lia.
      * by apply IH.
      * lia.
      * apply Z.ltb_ge in Hlt. specialize (IH c eq_refl x Hx); lia.
    + intros [= <-] x Hx. apply top_none in Hc; subst rest.
      apply elem_of_cons in Hx as [->|Hx]; [lia|by apply elem_of_nil in Hx].
Qed.

(** The scan order stands for the executor's freedom: every row of greatest
    amount is the one returned for some order of the same rows. *)
Lemma any_highest_row_is_returned_for_some_order (rows : list bid) (w : bid) :
  w ∈ rows → (∀ b, b ∈ rows → amount b ≤ amount w) →
  ∃ rows', rows' ≡ₚ rows ∧ order_by_amount_desc_limit_1 rows' = Some w.
Proof.
  intros Hin Hmax. apply elem_of_Permutation in Hin as [k Hk].
  exists (w :: k). split; [done|]. simpl.
  destruct (order_by_amount_desc_limit_1 k) as [c|] eqn:Hc; [|done].
  assert (amount c ≤ amount w) as Hle.
  { apply Hmax. rewrite Hk. right. by apply top_elem. }
  apply Z.ltb_ge in Hle. by rewrite Hle.
Qed.

(** The query reads [amount] only: rewriting the other columns of every
    row does not change which position of the scan is returned. *)
Lemma top_reads_amount_only (f : bid → bid) (rows : list bid) :
  (∀ b, amount (f b) = amount b) →
  order_by_amount_desc_limit_1 (f <$> rows) = f <$> order_by_amount_desc_limit_1 rows.
Proof.
  intros Hf; induction rows as [|b rest IH]; [done|].
  rewrite fmap_cons; cbn [order_by_amount_desc_limit_1]; rewrite IH.
  destruct (order_by_amount_desc_limit_1 rest) as [c|]; simpl; [|done].
  rewrite !Hf. by destruct (amount b <? amount c).
Qed.

Lemma lookup_auction_id (db : database) (i : uuid) (a : auction) :
  lookup_auction db i = Some a → a_id a = i ∧ a ∈ auctions db.
Proof.
  unfold lookup_auction; intros H. apply List.find_some in H as [Hin Hb].
  apply bool_decide_eq_true in Hb. split; [done|]. by apply list_elem_of_In.
Qed.

End QueryFacts.

(** ** [determine_auction_winner] *)

Module SettlementFacts.

Import Settlement QueryFacts.

Lemma select_winning_bid_spec (NEW : auction) (db : database) (wb : bid) :
  select_winning_bid NEW db = Some wb →
  wb ∈ bids db ∧ auction_id wb = a_id NEW ∧
  ∀ b, b ∈ bids db → auction_id b = a_id NEW → amount b ≤ amount wb.
Proof.
  unfold select_winning_bid; intros H.
  pose proof (top_elem _ _ H) as He. apply list_elem_of_filter in He as [Ha Hin].
  repeat split; [done..|].
  intros b Hb Hba. apply (top_is_greatest _ _ H).
  by apply list_elem_of_filter.
Qed.

Lemma select_winning_bid_some (NEW : auction) (db : database) (b : bid) :
  b ∈ bids db → auction_id b = a_id NEW → is_Some (select_winning_bid NEW db).
Proof.
  intros Hb Ha. apply top_is_some. intros Hnil.
  assert (b ∈ filter (λ b, auction_id b = a_id NEW) (bids db)) as Hin
    by by apply list_elem_of_filter.
  rewrite Hnil in Hin. by apply elem_of_nil in Hin.
Qed.

(** C1, as stated, fails.  Alice and Bob bid the same greatest amount, Alice
    with the earlier [created_at]; with Bob's row delivered first by the
    scan, the query of the settlement selects Bob's row, where the
    specification names Alice's.  ([created_at] is [now()], the start time
    of the inserting transaction, or a value the client sends, so the rows
    of the table need not lie in the order of their timestamps; and the
    query would not look at them if they did.) *)
Lemma later_bid_is_selected_in_a_tie :
  let db := Scenario.lamp_db ended [Scenario.bob_150; Scenario.alice_150] in
  let NEW := Scenario.lamp_auction ended in
  amount Scenario.alice_150 = amount Scenario.bob_150 ∧
  created_at Scenario.alice_150 = Some 990 ∧
  created_at Scenario.bob_150 = Some 995 ∧
  select_winning_bid NEW db = Some Scenario.bob_150 ∧
  Spec.winner_by_spec (bids db) = Some Scenario.alice_150 ∧
  ¬ Spec.selects_as_specified NEW db.
Proof.
  split; [reflexivity|]. split; [reflexivity|]. split; [reflexivity|].
  split; [reflexivity|]. split; [reflexivity|].
  intros H. vm_compute in H. discriminate H.
Qed.

(** C1, amended.  In an activation of [determine_auction_winner] for an
    update from [active] to [ended] of an auction that has a bid, the row
    selected into [winning_bid] is a bid of that auction of the greatest
    amount, and, when that row passes the [IS NOT NULL] test, the function
    goes on with that row: the [UPDATE] it issues sets [winner_id] and
    [winning_bid_id] to the row's bidder and id, and the notifications
    follow it.  This holds however the [UPDATE] is run and whatever comes
    of it. *)
Theorem a_highest_bid_is_selected
    (update : Installed.UPDATE) (OLD NEW : auction) (db : database) :
  status OLD = Some active →
  status NEW = Some ended →
  (∃ b, b ∈ bids db ∧ auction_id b = a_id NEW) →
  ∃ wb,
    select_winning_bid NEW db = Some wb ∧
    wb ∈ bids db ∧ auction_id wb = a_id NEW ∧
    (∀ b, b ∈ bids db → auction_id b = a_id NEW → amount b ≤ amount wb) ∧
    (is_Some (created_at wb) → is_Some (updated_at wb) →
     Installed.determine_auction_winner update OLD NEW db
     = update (λ a, bool_decide (a_id a = a_id NEW)) (set_winner wb) db
         ≫= Installed.notify_winner_and_seller NEW wb) ∧
    (∀ a, winner_id (set_winner wb a) = Some (bidder_id wb) ∧
          winning_bid_id (set_winner wb a) = Some (b_id wb)).
Proof.
  intros Hold Hnew (b & Hb & Hba).
  destruct (select_winning_bid_some NEW db b Hb Hba) as [wb Hwb].
  destruct (select_winning_bid_spec NEW db wb Hwb) as (Hin & Hid & Hmax).
  exists wb. split_and!; try done.
  intros Hc Hu. unfold Installed.determine_auction_winner.
  rewrite Hwb, !bool_decide_eq_true_2 by done. simpl.
  by rewrite !bool_decide_eq_true_2 by done.
Qed.

Lemma a_highest_bid_is_selected_witness :
  let update := Installed.update_auctions 8 Installed.service_role 1000 in
  let OLD := Scenario.lamp_auction active in
  let NEW := Scenario.lamp_auction ended in
  let db := Scenario.lamp_db ended [Scenario.alice_150] in
  ∃ wb,
    select_winning_bid NEW db = Some wb ∧
    wb ∈ bids db ∧ auction_id wb = "a1" ∧
    (∀ b, b ∈ bids db → auction_id b = "a1" → amount b ≤ amount wb) ∧
    (is_Some (created_at wb) → is_Some (updated_at wb) →
     Installed.determine_auction_winner update OLD NEW db
     = update (λ a, bool_decide (a_id a = "a1")) (set_winner wb) db
         ≫= Installed.notify_winner_and_seller NEW wb) ∧
    (∀ a, winner_id (set_winner wb a) = Some (bidder_id wb) ∧
          winning_bid_id (set_winner wb a) = Some (b_id wb)).
Proof.
  apply (a_highest_bid_is_selected
           (Installed.update_auctions 8 Installed.service_role 1000)
           (Scenario.lamp_auction active) (Scenario.lamp_auction ended)
           (Scenario.lamp_db ended [Scenario.alice_150])).
  - reflexivity.
  - reflexivity.
  - exists Scenario.alice_150. split; [left|reflexivity].
Defined.

End SettlementFacts.

(** ** The insert policy on [bids] *)

Module PolicyFacts.

Import Policy.

Lemma users_can_create_bids_spec (uid : auth_uid) (now : timestamptz)
    (db : database) (row : bid) :
  users_can_create_bids uid now db row = true ↔
  uid = Some (bidder_id row) ∧
  ∃ a, a ∈ auctions db ∧ a_id a = auction_id row ∧
       status a = Some active ∧ now < end_time a.
Proof.
  unfold users_can_create_bids, select_auctions, anyone_can_view.
  rewrite andb_true_iff, bool_decide_eq_true, existsb_exists. split.
  - intros [-> (a & Hin & Ha)].
    rewrite bool_decide_eq_true_2 in Hin by eauto.
    rewrite !andb_true_iff, !bool_decide_eq_true in Ha.
    destruct Ha as [[Hid Hs] Hlt]. split; [done|].
    exists a. rewrite list_elem_of_In. repeat split; try done.
    apply Z.gtb_lt in Hlt. lia.
  - intros [-> (a & Hin & Hid & Hs & Hlt)]. split; [done|].
    rewrite bool_decide_eq_true_2 by eauto.
    exists a. rewrite <- list_elem_of_In. split; [done|].
    rewrite !andb_true_iff, !bool_decide_eq_true. repeat split; try done.
    apply Z.gtb_lt. lia.
Qed.

(** The select policy on [bids]: a row is readable by its bidder and by no
    one else. *)
Lemma bid_is_readable_by_its_bidder_only (uid : auth_uid) (b : bid) :
  users_can_view_own_bids uid b = true ↔ uid = Some (bidder_id b).
Proof. unfold users_can_view_own_bids. apply bool_decide_eq_true. Qed.

Lemma insert_bid_some (uid : auth_uid) (now : timestamptz) (row : bid)
    (db db' : database) :
  insert_bid uid now row db = Some db' ↔
  users_can_create_bids uid now db row = true ∧ db' = set_bids (λ bs, bs ++ [row]) db.
Proof.
  unfold insert_bid. destruct (users_can_create_bids uid now db row).
  - split; [by intros [= <-]|by intros [_ ->]].
  - split; [discriminate|by intros [[=] _]].
Qed.

(** The deadline decides, whatever the status column says: a bid for an
    auction that is still [active] is refused from the end time on. *)
Lemma insert_refused_from_end_time (uid : auth_uid) (now : timestamptz) (row : bid)
    (db : database) :
  Forall (λ a, a_id a = auction_id row → end_time a ≤ now) (auctions db) →
  insert_bid uid now row db = None.
Proof.
  intros Hall. unfold insert_bid.
  destruct (users_can_create_bids uid now db row) eqn:E; [|done].
  apply users_can_create_bids_spec in E as [_ (a & Hin & Hid & _ & Hlt)].
  rewrite Forall_forall in Hall. specialize (Hall a Hin Hid). lia.
Qed.

(** C5, as stated, fails in its last part.  The policy does not read
    [created_at], and the column has a default but is not protected: at
    time 990 Alice inserts a bid on the lamp auction (end time 1000) and
    sends [created_at] 2000 with it; the row is admitted with a creation
    time after the end time. *)
Lemma bid_sent_with_a_late_timestamp_is_admitted :
  let late := {| b_id := "b9"; auction_id := "a1"; bidder_id := "alice"; amount := 150;
                 created_at := Some 2000; updated_at := Some 2000 |} in
  let db := Scenario.lamp_db active [] in
  insert_bid (Some "alice") 990 late db = Some (set_bids (λ bs, bs ++ [late]) db) ∧
  end_time (Scenario.lamp_auction active) = 1000 ∧
  ¬ Spec.created_before_end_time (Some "alice") 990 late db.
Proof.
  split; [reflexivity|]. split; [reflexivity|].
  intros H.
  specialize (H _ (Scenario.lamp_auction active) 2000 eq_refl).
  simpl in H. assert (2000 < 1000); [|lia].
  apply H; [left|reflexivity..].
Qed.

(** C5, amended.  A row is admitted into [bids] only if its bidder is the
    caller and the policy finds the target auction stored with status
    [active] and an end time strictly after the current time; from the end
    time on every row is refused, whatever the status.  An admitted row
    whose [created_at] is not after the current time, as it is when the
    column is left to its default [now()] (so [handleBidSubmit] leaves
    it), has a creation time strictly before that end time. *)
Theorem admitted_bid_was_sent_before_end_time
    (uid : auth_uid) (now : timestamptz) (row : bid) (db db' : database) :
  insert_bid uid now row db = Some db' →
  uid = Some (bidder_id row) ∧
  bids db' = bids db ++ [row] ∧
  (∃ a, a ∈ auctions db ∧ a_id a = auction_id row ∧
        status a = Some active ∧ now < end_time a ∧
        (∀ t, created_at row = Some t → t ≤ now → t < end_time a)) ∧
  (∀ new_id auction bidder amt,
     created_at (bid_with_defaults now new_id auction bidder amt) = Some now) ∧
  (∀ later row', auction_id row' = auction_id row →
     Forall (λ a, a_id a = auction_id row → end_time a ≤ later) (auctions db) →
     insert_bid uid later row' db' = None).
Proof.
  intros H. apply insert_bid_some in H as [Hpol ->].
  apply users_can_create_bids_spec in Hpol as (Huid & a & Ha & Hid & Hact & Hend).
  split_and!; try done.
  - exists a. split_and!; try done. intros t _ Ht. lia.
  - intros later row' Hsame Hall. apply insert_refused_from_end_time. simpl.
    by rewrite Hsame.
Qed.

Lemma admitted_bid_was_sent_before_end_time_witness :
  let db := Scenario.lamp_db active [] in
  let row := bid_with_defaults 990 "b1" "a1" "alice" 150 in
  let db' := set_bids (λ bs, bs ++ [row]) db in
  Some "alice" = Some (bidder_id row) ∧
  bids db' = bids db ++ [row] ∧
  (∃ a, a ∈ auctions db ∧ a_id a = auction_id row ∧
        status a = Some active ∧ 990 < end_time a ∧
        (∀ t, created_at row = Some t → t ≤ 990 → t < end_time a)) ∧
  (∀ new_id auction bidder amt,
     created_at (bid_with_defaults 990 new_id auction bidder amt) = Some 990) ∧
  (∀ later row', auction_id row' = auction_id row →
     Forall (λ a, a_id a = auction_id row → end_time a ≤ later) (auctions db) →
     insert_bid (Some "alice") later row' db' = None).
Proof.
  apply (admitted_bid_was_sent_before_end_time (Some "alice") 990
           (bid_with_defaults 990 "b1" "a1" "alice" 150) (Scenario.lamp_db active [])).
  reflexivity.
Defined.

End PolicyFacts.

(** ** The triggers as installed: what a statement on [auctions] leaves *)

Module InstalledFacts.

Import Settlement Lifecycle Policy Installed QueryFacts SettlementFacts PolicyFacts.

Lemma elem_of_update_where {A} (cond : A → bool) (set : A → A) (rows : list A) (a : A) :
  a ∈ rows → cond a = true → set a ∈ update_where cond set rows.
Proof.
  intros Hin Hc. unfold update_where. apply list_elem_of_fmap.
  exists a. by rewrite Hc.
Qed.

Lemma update_where_none {A} (cond : A → bool) (set : A → A) (rows : list A) :
  (∀ a, a ∈ rows → cond a = false) → update_where cond set rows = rows.
Proof.
  intros H. induction rows as [|a rows IH]; [done|]. simpl.
  rewrite (H a) by left. f_equal. apply IH. intros b Hb. apply H. by right.
Qed.

Lemma filter_none {A} (cond : A → bool) (rows : list A) :
  (∀ a, a ∈ rows → cond a = false) → filter (λ a, cond a) rows = [].
Proof.
  intros H. induction rows as [|a rows IH]; [done|].
  rewrite filter_cons_False by (rewrite (H a) by left; simpl; tauto).
  apply IH. intros b Hb. apply H. by right.
Qed.

(** The function's own [UPDATE] run alone, as a write of the rows it
    names, gives [Settlement.determine_auction_winner]. *)
Lemma determine_auction_winner_alone (OLD NEW : auction) (db : database) :
  Settlement.determine_auction_winner OLD NEW db
  = match determine_auction_winner
            (λ cond set db, Done (set_auctions (update_where cond set) db)) OLD NEW db with
    | Done db' => Some db'
    | Raised _ => None
    end.
Proof.
  unfold Settlement.determine_auction_winner, determine_auction_winner.
  destruct (_ && _); [|done].
  destruct (select_winning_bid NEW db) as [wb|]; simpl; [|done].
  destruct (_ && _); [|done]. simpl.
  unfold notify_winner_and_seller, product_column; simpl.
  destruct (filter (λ q, p_id q = product_id NEW) (products db)) as [|p [|p' l]] eqn:Hp;
    simpl; rewrite ?Hp; simpl; done.
Qed.

(** An activation of [determine_auction_winner] whose [UPDATE] is refused
    with 54001 either changed nothing before, or is refused itself. *)
Lemma determine_auction_winner_refused (update : UPDATE) (OLD NEW : auction)
    (db : database) :
  (∀ set, update (λ a, bool_decide (a_id a = a_id NEW)) set db
          = Raised stack_depth_exceeded) →
  determine_auction_winner update OLD NEW db
  = if bool_decide (status NEW = Some ended) && bool_decide (status OLD = Some active)
       && record_is_not_null (select_winning_bid NEW db)
    then Raised stack_depth_exceeded else Done db.
Proof.
  intros Hup. unfold determine_auction_winner.
  destruct (_ && _); [|done]. simpl.
  destruct (select_winning_bid NEW db) as [wb|]; simpl; [|done].
  destruct (_ && _); [|done]. by rewrite Hup.
Qed.

(** As installed, an [UPDATE] of [auctions] that reaches a stored row, run
    by a role that the policies do not bind, is refused with 54001 at
    every depth of the stack: [update_auction_status] fires for the row and
    updates it again. *)
Lemma update_auctions_service_role (depth : nat) (now : timestamptz)
    (cond : auction → bool) (set : auction → auction) (db : database) :
  (∃ a, a ∈ auctions db ∧ cond a = true) →
  update_auctions depth service_role now cond set db = Raised stack_depth_exceeded.
Proof.
  revert cond set db. induction depth as [|depth IH]; intros cond set db (a & Ha & Hc);
    [done|].
  simpl.
  destruct (filter (λ a, cond a) (auctions db)) as [|OLD rest] eqn:E.
  { assert (a ∈ filter (λ a, cond a) (auctions db)) as Hin.
    { apply list_elem_of_filter. split; [by rewrite Hc|done]. }
    rewrite E in Hin. by apply elem_of_nil in Hin. }
  assert (OLD ∈ auctions db ∧ cond OLD = true) as [Hold Hcold].
  { assert (OLD ∈ filter (λ a, cond a) (auctions db)) as Hin by (rewrite E; left).
    apply list_elem_of_filter in Hin as [Hp Hin]. split; [done|].
    by destruct (cond OLD). }
  set (db1 := set_auctions (update_where cond set) db).
  assert (∀ set', update_auctions depth service_role now
                    (λ a, bool_decide (a_id a = a_id (set OLD))) set' db1
                  = Raised stack_depth_exceeded) as Hup.
  { intros set'. apply IH. exists (set OLD). split.
    - by apply elem_of_update_where.
    - by apply bool_decide_eq_true. }
  rewrite fmap_cons. cbn [after_update].
  rewrite (determine_auction_winner_refused _ OLD (set OLD) db1 Hup).
  destruct (_ && _); [done|]. simpl.
  unfold check_auction_status. by rewrite Hup.
Qed.

(** Whoever runs it, an [UPDATE] of [auctions] leaves the database as it
    was: it reaches no row, or it is refused and rolled back. *)
Lemma update_auctions_commit (depth : nat) (r : role) (now : timestamptz)
    (cond : auction → bool) (set : auction → auction) (db : database) :
  commit db (update_auctions depth r now cond set db) = db.
Proof.
  destruct (decide (Exists (λ a, cond a = true) (auctions db))) as [Hex|Hno].
  - destruct depth as [|depth]; [done|]. destruct r as [uid|]; [done|].
    apply Exists_exists in Hex. by rewrite update_auctions_service_role.
  - destruct depth as [|depth]; [done|]. destruct r as [uid|]; [done|].
    assert (∀ a, a ∈ auctions db → cond a = false) as Hnone.
    { intros a Ha. destruct (cond a) eqn:Hc; [|done].
      destruct Hno. apply Exists_exists. by exists a. }
    cbn [update_auctions]. unfold set_auctions.
    rewrite filter_none, update_where_none by done. simpl.
    by destruct db.
Qed.

Lemma insert_auction_commit (depth : nat) (uid : auth_uid) (now : timestamptz)
    (row : auction) (db : database) :
  commit db (insert_auction depth uid now row db) = db ∨
  (commit db (insert_auction depth uid now row db)
   = set_auctions (λ rows, rows ++ [row]) db ∧
   a_id row ∉ a_id <$> auctions db).
Proof.
  unfold insert_auction. destruct (sellers_can_create_auctions uid db row); [|by left].
  destruct (decide (a_id row ∈ a_id <$> auctions db)) as [Hin|Hout].
  - rewrite bool_decide_eq_true_2 by done. by left.
  - rewrite bool_decide_eq_false_2 by done.
    destruct depth as [|depth]; [by left|]. right. done.
Qed.

Lemma insert_bid_commit (uid : auth_uid) (now : timestamptz) (row : bid) (db : database) :
  commit db (of_option insufficient_privilege (insert_bid uid now row db)) = db ∨
  (commit db (of_option insufficient_privilege (insert_bid uid now row db))
   = set_bids (λ bs, bs ++ [row]) db ∧
   ∃ a, a ∈ auctions db ∧ a_id a = auction_id row ∧ status a = Some active).
Proof.
  destruct (insert_bid uid now row db) as [db'|] eqn:E; [|by left].
  apply insert_bid_some in E as [Hpol ->].
  apply users_can_create_bids_spec in Hpol as (_ & a & Ha & Hid & Hact & _).
  right. split; [done|]. by exists a.
Qed.

Lemma find_app_Some {A} (f : A → bool) (l l' : list A) (x : A) :
  List.find f l = Some x → List.find f (l ++ l') = Some x.
Proof.
  induction l as [|y l IH]; [done|]. simpl. destruct (f y); [done|]. apply IH.
Qed.

(** No statement changes a stored auction or adds a notification. *)
Lemma exec_frame (depth : nat) (now : timestamptz) (s : statement) (db : database) :
  notifications (commit db (exec depth now s db)) = notifications db ∧
  products (commit db (exec depth now s db)) = products db ∧
  ∀ i a, lookup_auction db i = Some a →
         lookup_auction (commit db (exec depth now s db)) i = Some a.
Proof.
  destruct s as [uid row|uid row|r cond set]; simpl.
  - destruct (insert_auction_commit depth uid now row db) as [->|[-> _]]; [done|].
    split_and!; try done. intros i a. unfold lookup_auction; simpl. apply find_app_Some.
  - destruct (insert_bid_commit uid now row db) as [->|[-> _]]; done.
  - by rewrite update_auctions_commit.
Qed.

Lemma run_frame (depth : nat) (steps : list (timestamptz * statement)) (db : database) :
  notifications (run depth db steps) = notifications db ∧
  products (run depth db steps) = products db ∧
  ∀ i a, lookup_auction db i = Some a → lookup_auction (run depth db steps) i = Some a.
Proof.
  revert db. induction steps as [|x steps IH]; intros db; [done|].
  unfold run in *. simpl.
  destruct (exec_frame depth x.1 x.2 db) as (Hn & Hp & Hl).
  destruct (IH (commit db (exec depth x.1 x.2 db))) as (Hn' & Hp' & Hl').
  split_and!; [congruence|congruence|]. intros i a Ha. by apply Hl', Hl.
Qed.

(** C2.  Settlement does not happen a second time.  Whatever statements
    are run, by whichever roles and at whatever times, no notification is
    added and every stored auction keeps its winner and its winning bid;
    and an activation of [determine_auction_winner] for a stored auction,
    as the triggers are installed, either returns having changed nothing
    or is refused with 54001, rolling back the update that fired it. *)
Theorem settlement_is_not_repeated
    (depth : nat) (steps : list (timestamptz * statement)) (db : database) :
  let db' := run depth db steps in
  notifications db' = notifications db ∧
  (∀ i a, lookup_auction db i = Some a →
          ∃ a', lookup_auction db' i = Some a' ∧
                winner_id a' = winner_id a ∧ winning_bid_id a' = winning_bid_id a) ∧
  (∀ now OLD NEW d,
     (∃ a, a ∈ auctions d ∧ a_id a = a_id NEW) →
     determine_auction_winner (update_auctions depth service_role now) OLD NEW d = Done d ∨
     determine_auction_winner (update_auctions depth service_role now) OLD NEW d
     = Raised stack_depth_exceeded).
Proof.
  intros db'. destruct (run_frame depth steps db) as (Hn & _ & Hl).
  split; [done|]. split.
  - intros i a Ha. exists a. split; [by apply Hl|done].
  - intros now OLD NEW d (a & Ha & Hid).
    rewrite determine_auction_winner_refused.
    + destruct (_ && _); [by right|by left].
    + intros set. apply update_auctions_service_role.
      exists a. split; [done|]. by apply bool_decide_eq_true.
Qed.











(** X17.  As the triggers are installed, an activation of
    [determine_auction_winner] for a stored auction is refused with 54001
    exactly when the update went from active to ended and the selected row
    passes the [IS NOT NULL] test, before any notification is inserted;
    otherwise it returns the database as it was.  The activation of
    [check_auction_status] that follows for the same row is refused with
    54001 in either case. *)
Theorem settlement_as_installed_is_refused
    (depth : nat) (now : timestamptz) (OLD NEW : auction) (db : database) :
  (∃ a, a ∈ auctions db ∧ a_id a = a_id NEW) →
  determine_auction_winner (update_auctions depth service_role now) OLD NEW db
  = (if bool_decide (status NEW = Some ended) && bool_decide (status OLD = Some active)
        && record_is_not_null (select_winning_bid NEW db)
     then Raised stack_depth_exceeded else Done db) ∧
  check_auction_status (update_auctions depth service_role now) now NEW db
  = Raised stack_depth_exceeded.
Proof.
  intros (a & Ha & Hid).
  assert (∀ set, update_auctions depth service_role now
                   (λ a, bool_decide (a_id a = a_id NEW)) set db
                 = Raised stack_depth_exceeded) as Hup.
  { intros set. apply update_auctions_service_role.
    exists a. split; [done|]. by apply bool_decide_eq_true. }
  split; [by apply determine_auction_winner_refused|apply Hup].
Qed.

Lemma settlement_as_installed_is_refused_witness :
  let OLD := Scenario.lamp_auction active in
  let NEW := Scenario.lamp_auction ended in
  let db := Scenario.lamp_db ended [Scenario.alice_150] in
  determine_auction_winner (update_auctions 8 service_role 1000) OLD NEW db
  = (if bool_decide (status NEW = Some ended) && bool_decide (status OLD = Some active)
        && record_is_not_null (select_winning_bid NEW db)
     then Raised stack_depth_exceeded else Done db) ∧
  check_auction_status (update_auctions 8 service_role 1000) 1000 NEW db
  = Raised stack_depth_exceeded.
Proof.
  apply (settlement_as_installed_is_refused 8 1000 (Scenario.lamp_auction active)
           (Scenario.lamp_auction ended) (Scenario.lamp_db ended [Scenario.alice_150])).
  exists (Scenario.lamp_auction ended). split; [left|reflexivity].
Defined.

End InstalledFacts.

(** ** The auction page *)

Module PageFacts.

Import Policy Page QueryFacts PolicyFacts.

Lemma js_or_bound (h sp : Z) : 0 ≤ sp → h ≤ js_or (Some h) sp.
Proof. intros Hsp. unfold js_or. destruct (h =? 0) eqn:E; lia. Qed.

Lemma js_or_same (sp : Z) : js_or (Some sp) sp = sp.
Proof. unfold js_or. by destruct (sp =? 0). Qed.

(** [fetchAuctionDetails] keeps the route and the user. *)
Lemma fetch_keeps_session (db : database) (st : state) :
  route_id (fetchAuctionDetails db st) = route_id st ∧
  user (fetchAuctionDetails db st) = user st.
Proof. unfold fetchAuctionDetails. by destruct (select_auction st db). Qed.

Lemma fetch_failed (db : database) (st : state) :
  select_auction st db = None → error_shown (fetchAuctionDetails db st) = true.
Proof. intros H. unfold fetchAuctionDetails. by rewrite H. Qed.

(** After a successful fetch the page holds, as [highest_bid], the greatest
    amount among the bids its user may read, or the start price when there
    is none. *)
Lemma fetch_highest_bid (db : database) (st : state) (data : Schema.auction) :
  select_auction st db = Some data →
  ∃ a, auction (fetchAuctionDetails db st) = Some a ∧
       A_start_price a = start_price data ∧
       highest_bid a = Some (match select_top_bid st db with
                             | Some top => amount top
                             | None => start_price data
                             end).
Proof. intros H. unfold fetchAuctionDetails. rewrite H. simpl. eauto. Qed.

Lemma fetch_threshold (db : database) (st : state) (data : Schema.auction) (a : Auction) :
  select_auction st db = Some data →
  0 ≤ start_price data →
  auction (fetchAuctionDetails db st) = Some a →
  ∀ b, b ∈ readable_bids st db → amount b ≤ js_or (highest_bid a) (A_start_price a).
Proof.
  intros Hd Hsp Ha b Hin.
  destruct (fetch_highest_bid db st data Hd) as (a' & Ha' & Hs & Hh).
  rewrite Ha in Ha'. injection Ha' as <-. rewrite Hh, Hs.
  unfold select_top_bid. destruct (order_by_amount_desc_limit_1 _) as [top|] eqn:Htop.
  - pose proof (js_or_bound (amount top) (start_price data) Hsp).
    pose proof (top_is_greatest _ _ Htop b Hin). simpl in *. lia.
  - apply top_none in Htop. rewrite Htop in Hin. by apply elem_of_nil in Hin.
Qed.

Lemma fetch_bound (db : database) (st : state) (data : Schema.auction) (a : Auction) :
  select_auction st db = Some data →
  auction (fetchAuctionDetails db st) = Some a →
  A_start_price a = start_price data ∧
  ∃ v, highest_bid a = Some v ∧ ∀ b, b ∈ readable_bids st db → amount b ≤ v.
Proof.
  intros Hd Ha.
  destruct (fetch_highest_bid db st data Hd) as (a' & Ha' & Hs & Hh).
  rewrite Ha in Ha'. injection Ha' as <-. split; [done|].
  eexists. split; [exact Hh|]. intros b Hin.
  unfold select_top_bid. destruct (order_by_amount_desc_limit_1 _) as [top|] eqn:Htop.
  - by apply (top_is_greatest _ _ Htop).
  - apply top_none in Htop. rewrite Htop in Hin. by apply elem_of_nil in Hin.
Qed.

(** The outcomes of [handleBidSubmit]: either nothing is stored and an
    error is shown, or the check against the page's [highest_bid] passed,
    the policy accepted the row, and the row was appended. *)
Lemma handleBidSubmit_cases (now : timestamptz) (new_id : uuid)
    (db : database) (st : state) :
  ((handleBidSubmit now new_id db st).2 = db ∧
   error_shown (handleBidSubmit now new_id db st).1 = true) ∨
  ∃ u a row,
    user st = Some u ∧ auction st = Some a ∧
    js_or (highest_bid a) (A_start_price a) < bidAmount st ∧
    row = bid_with_defaults now new_id (route_id st) (u_id u) (bidAmount st) ∧
    users_can_create_bids (Some (u_id u)) now db row = true ∧
    (handleBidSubmit now new_id db st).2 = set_bids (λ bs, bs ++ [row]) db ∧
    ((icon a = None ∧ error_shown (handleBidSubmit now new_id db st).1 = true) ∨
     (is_Some (icon a) ∧
      (handleBidSubmit now new_id db st).1
      = setError None
          (fetchAuctionDetails (set_bids (λ bs, bs ++ [row]) db) st))).
Proof.
  unfold handleBidSubmit.
  destruct (user st) as [u|] eqn:Hu; [|by left].
  destruct (auction st) as [a|] eqn:Ha; [|by left].
  destruct (bidAmount st <=? _) eqn:Hle; [by left|].
  apply Z.leb_gt in Hle.
  unfold insert_bid, session. rewrite Hu. simpl.
  destruct (users_can_create_bids _ _ _ _) eqn:Hpol; [|by left].
  right. exists u, a, (bid_with_defaults now new_id (route_id st) (u_id u) (bidAmount st)).
  do 5 (split; [done|]).
  destruct (icon a) as [i|]; simpl; (split; [done|]); [right|left]; eauto.
Qed.

(** C6, as stated, fails.  Bob opens the lamp auction (start price 100)
    while it has no bid; Alice's bid of 150 is stored; Bob submits 120 and
    it is stored.  Reloading his page first would not help Bob: the policy
    on [bids] lets him read his own bids only. *)
Lemma lower_bid_admitted_after_higher :
  let db0 := Scenario.lamp_db active [] in
  let bob := fetchAuctionDetails db0 (Scenario.page_of "bob") in
  let db1 := (visit db0 (Scenario.page_of "alice") [Use (Scenario.at_time 990 "b1" 150)]).1 in
  let r := handleBidSubmit 995 "b2" db1 (setBidAmount 120 bob) in
  bids db1 = [Scenario.alice_150] ∧
  fetchAuctionDetails db1 (Scenario.page_of "bob") = bob ∧
  amount <$> bids r.2 = [150; 120] ∧
  error r.1 = None ∧
  ¬ Spec.exceeds_current_highest 995 "b2" db1 (setBidAmount 120 bob).
Proof.
  split; [reflexivity|]. split; [reflexivity|]. split; [reflexivity|].
  split; [reflexivity|]. intros H.
  specialize (H (Scenario.bid_of "b2" "bob" 120 995) Scenario.alice_150).
  assert (150 < 120) as Habs; [|lia].
  apply H.
  - right; left.
  - intros Hin. apply elem_of_cons in Hin as [Heq|Hin]; [discriminate Heq|].
    by apply elem_of_nil in Hin.
  - left.
  - reflexivity.
Qed.

(** C6, amended.  A page is loaded from the database [db0] and the amount
    [amt] is submitted, against whatever database [db] is stored by then.
    If a bid is stored, [amt] strictly exceeds the amount of every bid the
    page's user could read when the page was loaded (a tie included), and
    strictly exceeds the start price when there was none.  (The start price
    is not negative.) *)
Theorem submitted_bid_exceeds_highest_bid_on_page
    (now : timestamptz) (new_id : uuid) (db0 db : database) (st0 : state) (amt : Z)
    (data : Schema.auction) :
  select_auction st0 db0 = Some data →
  0 ≤ start_price data →
  (handleBidSubmit now new_id db (setBidAmount amt (fetchAuctionDetails db0 st0))).2 ≠ db →
  (∀ b, b ∈ readable_bids st0 db0 → amount b < amt) ∧
  (readable_bids st0 db0 = [] → start_price data < amt).
Proof.
  intros Hd Hsp Hstored.
  destruct (handleBidSubmit_cases now new_id db
              (setBidAmount amt (fetchAuctionDetails db0 st0)))
    as [[Hsame _]|(u & a & row & _ & Ha & Hlt & _)]; [done|].
  simpl in Ha, Hlt. split.
  - intros b Hb. pose proof (fetch_threshold db0 st0 data a Hd Hsp Ha b Hb). lia.
  - intros Hnil.
    destruct (fetch_highest_bid db0 st0 data Hd) as (a' & Ha' & Hs & Hh).
    rewrite Ha in Ha'. injection Ha' as <-.
    unfold select_top_bid in Hh. rewrite Hnil in Hh. simpl in Hh.
    rewrite Hh, Hs, js_or_same in Hlt. done.
Qed.

Lemma submitted_bid_exceeds_highest_bid_on_page_witness :
  (∀ b, b ∈ readable_bids (Scenario.page_of "alice")
              (Scenario.lamp_db active [Scenario.alice_150]) → amount b < 160) ∧
  (readable_bids (Scenario.page_of "alice")
     (Scenario.lamp_db active [Scenario.alice_150]) = [] → 100 < 160).
Proof.
  apply (submitted_bid_exceeds_highest_bid_on_page 995 "b3"
           (Scenario.lamp_db active [Scenario.alice_150])
           (Scenario.lamp_db active [Scenario.alice_150])
           (Scenario.page_of "alice") 160 (Scenario.lamp_auction active)).
  - reflexivity.
  - simpl; lia.
  - vm_compute. discriminate.
Defined.

(** C7, as stated, fails.  Sam, the seller of the lamp, opens its auction
    and submits 150: the bid is stored and no error is shown. *)
Lemma seller_bid_is_stored :
  let db0 := Scenario.lamp_db active [] in
  let sam := setBidAmount 150 (fetchAuctionDetails db0 (Scenario.page_of "sam")) in
  let r := handleBidSubmit 990 "b1" db0 sam in
  seller_id Scenario.lamp = "sam" ∧
  bids r.2 = [Scenario.bid_of "b1" "sam" 150 990] ∧
  error r.1 = None ∧
  ¬ Spec.self_bid_is_rejected 990 "b1" db0 sam.
Proof.
  split; [reflexivity|]. split; [reflexivity|]. split; [reflexivity|].
  intros H.
  destruct (H {| u_id := "sam" |}
              {| A_id := "a1";
                 A_product := Some {| P_id := "p1"; P_title := "Lamp";
                                      P_images := Some ["lamp.png"];
                                      P_seller_id := "sam" |};
                 A_start_price := 100; A_end_time := 1000;
                 A_status := Some active; highest_bid := Some 100 |}
              {| P_id := "p1"; P_title := "Lamp"; P_images := Some ["lamp.png"];
                 P_seller_id := "sam" |}
              eq_refl eq_refl eq_refl eq_refl) as [Hdb _].
  vm_compute in Hdb. discriminate Hdb.
Qed.

(** C7, amended.  A submission by the seller of the item is treated as any
    other: when the amount exceeds the page's [highest_bid] and the insert
    policy accepts the row, the seller's bid is stored, and no error is
    shown when the page has the product's images. *)
Theorem seller_bid_is_admitted_like_any_other
    (now : timestamptz) (new_id : uuid) (db : database) (st : state)
    (u : User) (a : Auction) (p : Product) :
  user st = Some u → auction st = Some a →
  A_product a = Some p → P_seller_id p = u_id u →
  js_or (highest_bid a) (A_start_price a) < bidAmount st →
  users_can_create_bids (Some (u_id u)) now db
    (bid_with_defaults now new_id (route_id st) (u_id u) (bidAmount st)) = true →
  bids (handleBidSubmit now new_id db st).2
  = bids db ++ [bid_with_defaults now new_id (route_id st) (P_seller_id p) (bidAmount st)] ∧
  (is_Some (P_images p) → error (handleBidSubmit now new_id db st).1 = None).
Proof.
  intros Hu Ha Hp Hseller Hlt Hpol. rewrite Hseller.
  unfold handleBidSubmit. rewrite Hu, Ha.
  apply Z.leb_gt in Hlt. rewrite Hlt.
  unfold insert_bid, session. rewrite Hu. simpl. rewrite Hpol.
  unfold icon. rewrite Hp. simpl.
  destruct (P_images p) as [imgs|]; simpl; split; done.
Qed.

Lemma seller_bid_is_admitted_like_any_other_witness :
  let db0 := Scenario.lamp_db active [] in
  let sam := setBidAmount 150 (fetchAuctionDetails db0 (Scenario.page_of "sam")) in
  bids (handleBidSubmit 990 "b1" db0 sam).2
  = [] ++ [bid_with_defaults 990 "b1" "a1" "sam" 150] ∧
  (is_Some (Some ["lamp.png"]) → error (handleBidSubmit 990 "b1" db0 sam).1 = None).
Proof.
  apply (seller_bid_is_admitted_like_any_other 990 "b1" (Scenario.lamp_db active [])
           (setBidAmount 150
              (fetchAuctionDetails (Scenario.lamp_db active []) (Scenario.page_of "sam")))
           {| u_id := "sam" |}
           {| A_id := "a1";
              A_product := Some {| P_id := "p1"; P_title := "Lamp";
                                   P_images := Some ["lamp.png"];
                                   P_seller_id := "sam" |};
              A_start_price := 100; A_end_time := 1000;
              A_status := Some active; highest_bid := Some 100 |}
           {| P_id := "p1"; P_title := "Lamp"; P_images := Some ["lamp.png"];
              P_seller_id := "sam" |}).
  - reflexivity.
  - reflexivity.
  - reflexivity.
  - reflexivity.
  - simpl; lia.
  - reflexivity.
Defined.

Lemma elem_of_readable_bids (st : state) (db : database) (b : bid) :
  b ∈ readable_bids st db ↔
  auction_id b = route_id st ∧ session st = Some (bidder_id b) ∧ b ∈ bids db.
Proof.
  unfold readable_bids, select_bids, users_can_view_own_bids.
  rewrite !list_elem_of_filter, bool_decide_spec. naive_solver.
Qed.

Lemma set_bids_app_ne (row : bid) (db : database) :
  set_bids (λ bs, bs ++ [row]) db ≠ db.
Proof.
  intros H. apply (f_equal (λ d, length (bids d))) in H. simpl in H.
  rewrite length_app in H. simpl in H. lia.
Qed.

(** Whether a run of [handleBidSubmit] stores its row does not depend on
    the table [bids]: the run on a database and the run on the same
    database with other rows in [bids] both store the row, or neither
    does. *)
Lemma handleBidSubmit_set_bids (now : timestamptz) (new_id : uuid)
    (db : database) (st : state) (f : list bid → list bid) :
  ((handleBidSubmit now new_id db st).2 = db ∧
   (handleBidSubmit now new_id (set_bids f db) st).2 = set_bids f db) ∨
  ∃ u,
    user st = Some u ∧
    (handleBidSubmit now new_id db st).2
    = set_bids (λ bs, bs ++ [bid_with_defaults now new_id (route_id st) (u_id u)
                               (bidAmount st)]) db ∧
    (handleBidSubmit now new_id (set_bids f db) st).2
    = set_bids (λ bs, bs ++ [bid_with_defaults now new_id (route_id st) (u_id u)
                               (bidAmount st)]) (set_bids f db).
Proof.
  unfold handleBidSubmit.
  destruct (user st) as [u|] eqn:Hu; [|by left].
  destruct (auction st) as [a|]; [|by left].
  destruct (bidAmount st <=? _); [by left|].
  unfold insert_bid.
  change (users_can_create_bids (session st) now (set_bids f db)
            (bid_with_defaults now new_id (route_id st) (u_id u) (bidAmount st)))
    with (users_can_create_bids (session st) now db
            (bid_with_defaults now new_id (route_id st) (u_id u) (bidAmount st))).
  destruct (users_can_create_bids _ _ _ _); [|by left].
  right. exists u. by destruct (icon a).
Qed.

(** C9, as stated, fails.  Alice and Bob both open the lamp auction while
    it has no bid; Alice submits 150, then Bob submits 150, and Alice's
    page runs a second submission that was started from the same render
    as her first (the button stays enabled while a submission is pending):
    all three rows are stored, and the accepted bids in admission order
    are not strictly increasing. *)
Lemma tied_bids_both_admitted :
  let db0 := Scenario.lamp_db active [] in
  let alice := setBidAmount 150 (fetchAuctionDetails db0 (Scenario.page_of "alice")) in
  let bob := setBidAmount 150 (fetchAuctionDetails db0 (Scenario.page_of "bob")) in
  let r1 := handleBidSubmit 990 "b1" db0 alice in
  let r2 := handleBidSubmit 995 "b2" r1.2 bob in
  let r3 := handleBidSubmit 996 "b3" r2.2 alice in
  amount <$> bids r2.2 = [150; 150] ∧
  bidder_id <$> bids r2.2 = ["alice"; "bob"] ∧
  amount <$> bids r3.2 = [150; 150; 150] ∧
  bidder_id <$> bids r3.2 = ["alice"; "bob"; "alice"] ∧
  ¬ Spec.accepted_strictly_increasing "a1" r2.2 ∧
  ¬ Spec.accepted_strictly_increasing "a1" r3.2.
Proof.
  split; [reflexivity|]. split; [reflexivity|]. split; [reflexivity|].
  split; [reflexivity|]. split.
  - intros H. apply StronglySorted_cons in H as [H _].
    apply Forall_cons in H as [H _]. vm_compute in H. discriminate H.
  - intros H. apply StronglySorted_cons in H as [H _].
    apply Forall_cons in H as [H _]. vm_compute in H. discriminate H.
Qed.

(** C9, amended.  Nothing serializes submissions, and the admission of one
    does not depend on the other: of two runs of [handleBidSubmit], from
    the same or from different page states, the second stores its row on
    the database the first has left exactly when it would have stored it
    had the first not run, and the row it stores holds the amount of its
    own page state, whatever the first has stored.  When both store, the
    two rows follow each other in [bids] with the amounts submitted,
    whether these tie or the second is lower. *)
Theorem admission_does_not_depend_on_other_submissions
    (now1 now2 : timestamptz) (id1 id2 : uuid) (st1 st2 : state) (db : database) :
  let db1 := (handleBidSubmit now1 id1 db st1).2 in
  let r := handleBidSubmit now2 id2 db st2 in
  let r' := handleBidSubmit now2 id2 db1 st2 in
  (r'.2 = db1 ↔ r.2 = db) ∧
  (r'.2 ≠ db1 →
   ∃ u, user st2 = Some u ∧
        bids r'.2 = bids db1 ++ [bid_with_defaults now2 id2 (route_id st2) (u_id u)
                                   (bidAmount st2)]) ∧
  (db1 ≠ db → r'.2 ≠ db1 →
   ∃ b1 b2, bids r'.2 = bids db ++ [b1; b2] ∧
            amount b1 = bidAmount st1 ∧ amount b2 = bidAmount st2).
Proof.
  intros db1 r r'.
  assert (∃ f, db1 = set_bids f db ∧
               (db1 ≠ db → ∃ b1, f = (λ bs, bs ++ [b1]) ∧ amount b1 = bidAmount st1))
    as (f & Hdb1 & Hb1).
  { unfold db1.
    destruct (handleBidSubmit_set_bids now1 id1 db st1 (λ bs, bs)) as [[-> _]|(u & _ & -> & _)].
    - exists (λ bs, bs). split; [by destruct db|done].
    - eexists. split; [done|]. intros _. by eexists. }
  unfold r, r'. rewrite Hdb1.
  destruct (handleBidSubmit_set_bids now2 id2 db st2 f) as [[-> ->]|(u & Hu & -> & ->)].
  - split_and!; try done.
  - split_and!.
    + split; intros H; [by apply set_bids_app_ne in H|].
      exfalso. by apply set_bids_app_ne in H.
    + intros _. by exists u.
    + intros Hne _. rewrite <- Hdb1 in Hne. destruct (Hb1 Hne) as (b1 & -> & Hamt).
      eexists b1, _. simpl. rewrite <- app_assoc. done.
Qed.

End PageFacts.

(** ** [WebSocketService] *)

Module WebSocketFacts.

Import WebSocket.

Section Service.

Context {payload R : Type}.
Implicit Types (s : @service payload R) (c : nat) (i key name : string).

Lemma well_formed_empty : well_formed (@empty_service payload R).
Proof. intros k c H. simpl in H. by rewrite lookup_empty in H. Qed.

Lemma orphaned_open_channel c key name (h : payload → R) s :
  orphaned c s → orphaned c (open_channel key name h s).
Proof.
  intros (Hlt & Hsub & Hno). unfold orphaned, open_channel; simpl. split_and!.
  - lia.
  - rewrite lookup_insert_ne by lia. done.
  - intros k. destruct (decide (key = k)) as [->|Hne].
    + rewrite lookup_insert_eq. intros [= Heq]. lia.
    + rewrite lookup_insert_ne by done. apply Hno.
Qed.

Lemma orphaned_unsubscribeFromChannel c key s :
  orphaned c s → orphaned c (unsubscribeFromChannel key s).
Proof.
  intros (Hlt & Hsub & Hno). unfold unsubscribeFromChannel.
  destruct (channels s !! key) as [ch|] eqn:Hk; [|done].
  unfold orphaned; simpl. split_and!; [done|..].
  - rewrite lookup_delete_ne; [done|]. intros ->. by apply (Hno key).
  - intros k. destruct (decide (key = k)) as [->|Hne].
    + by rewrite lookup_delete_eq.
    + rewrite lookup_delete_ne by done. apply Hno.
Qed.

Lemma orphaned_run_call c s (call : @call payload R) :
  orphaned c s → orphaned c (run_call s call).
Proof.
  destruct call; simpl; intros H.
  - by apply orphaned_open_channel.
  - by apply orphaned_open_channel.
  - by apply orphaned_unsubscribeFromChannel.
  - by apply orphaned_unsubscribeFromChannel.
Qed.

Lemma orphaned_run_calls c s (calls : list (@call payload R)) :
  orphaned c s → orphaned c (foldl run_call s calls).
Proof.
  revert s. induction calls as [|x calls IH]; intros s H; simpl; [done|].
  by apply IH, orphaned_run_call.
Qed.

(** After a second [subscribeToAuction] with the same id, the channel of
    the first one is orphaned. *)
Lemma resubscription_orphans i (f g : payload → R) s :
  well_formed s →
  orphaned (created s) (subscribeToAuction i g (subscribeToAuction i f s).1).1.
Proof.
  intros Hwf. unfold orphaned; simpl. split_and!.
  - lia.
  - rewrite lookup_insert_ne by lia. rewrite lookup_insert_eq. by eexists.
  - intros k. destruct (decide (i = k)) as [->|Hne].
    + rewrite lookup_insert_eq. intros [= H]. lia.
    + rewrite !lookup_insert_ne by done. intros H. apply Hwf in H. lia.
Qed.

(** C10.  After [subscribeToAuction] has been called twice with the same
    auction id, the entry of [channels] for that id refers to the second
    channel and no longer to the first; the unsubscribe function returned
    by the first call leaves the first channel subscribed; and whatever
    calls follow, the first channel stays subscribed and is never again
    referred to by [channels], so that it is never the channel an
    unsubscribe removes. *)
Theorem resubscription_leaves_first_channel_subscribed
    i (f g : payload → R) s (calls : list (@call payload R)) :
  well_formed s →
  let r1 := subscribeToAuction i f s in
  let r2 := subscribeToAuction i g r1.1 in
  let c1 := created s in
  let c2 := created r1.1 in
  channels r1.1 !! i = Some c1 ∧
  channels r2.1 !! i = Some c2 ∧
  c1 ≠ c2 ∧
  is_Some (subscribed (r1.2 r2.1) !! c1) ∧
  is_Some (subscribed (foldl run_call r2.1 calls) !! c1) ∧
  (∀ k, channels (foldl run_call r2.1 calls) !! k ≠ Some c1).
Proof.
  intros Hwf r1 r2 c1 c2.
  pose proof (resubscription_orphans i f g s Hwf) as Ho.
  split_and!.
  - simpl. by rewrite lookup_insert_eq.
  - simpl. by rewrite lookup_insert_eq.
  - unfold c1, c2; simpl. lia.
  - apply (orphaned_unsubscribeFromChannel _ ("auction:" +:+ i)) in Ho.
    by destruct Ho as (_ & ? & _).
  - apply (orphaned_run_calls _ _ calls) in Ho. by destruct Ho as (_ & ? & _).
  - apply (orphaned_run_calls _ _ calls) in Ho. by destruct Ho as (_ & _ & ?).
Qed.

(** The unsubscribe function of [subscribeToAuction] looks the channel up
    under the key ["auction:" ++ id], while the channel is stored under
    [id]: unless that other key is in use, calling it changes nothing. *)
Lemma unsubscribe_uses_another_key i (f : payload → R) s :
  "auction:" +:+ i ≠ i →
  channels s !! ("auction:" +:+ i) = None →
  (subscribeToAuction i f s).2 (subscribeToAuction i f s).1
  = (subscribeToAuction i f s).1.
Proof.
  intros Hne Hfree. simpl. unfold unsubscribeFromAuction, unsubscribeFromChannel.
  simpl. rewrite lookup_insert_ne by done. by rewrite Hfree.
Qed.


End Service.

Lemma resubscription_leaves_first_channel_subscribed_witness :
  let f := λ _ : unit, tt in
  let calls := [UnsubscribeAuction "a1"; UnsubscribeAuction "a1"; UnsubscribeStatus "a1"] in
  let r1 := subscribeToAuction "a1" f empty_service in
  let r2 := subscribeToAuction "a1" f r1.1 in
  channels r1.1 !! "a1" = Some 0%nat ∧
  channels r2.1 !! "a1" = Some 1%nat ∧
  0%nat ≠ 1%nat ∧
  is_Some (subscribed (r1.2 r2.1) !! 0%nat) ∧
  is_Some (subscribed (foldl run_call r2.1 calls) !! 0%nat) ∧
  (∀ k, channels (foldl run_call r2.1 calls) !! k ≠ Some 0%nat).
Proof.
  apply (resubscription_leaves_first_channel_subscribed "a1"
           (λ _ : unit, tt) (λ _ : unit, tt) empty_service
           [UnsubscribeAuction "a1"; UnsubscribeAuction "a1"; UnsubscribeStatus "a1"]).
  apply well_formed_empty.
Defined.

Import Page.



End WebSocketFacts.

(** ** [WebSocketService]: keys, round trips and the subscription effect *)

Module ServiceFacts.

Import WebSocket PageMore WebSocketFacts.

Lemma auction_key_ne (i : string) : "auction:" +:+ i ≠ i.
Proof.
  intros H. apply (f_equal String.length) in H.
  change (String.length ("auction:" +:+ i)) with (8 + String.length i)%nat in H. lia.
Qed.

Lemma status_key_ne (i : string) : "auction-status:" +:+ i ≠ i.
Proof.
  intros H. apply (f_equal String.length) in H.
  change (String.length ("auction-status:" +:+ i)) with (15 + String.length i)%nat in H. lia.
Qed.

Lemma status_key_ne_auction_key (i j : string) :
  "auction-status:" +:+ i ≠ "auction:" +:+ j.
Proof.
  intros H. apply (f_equal (String.get 7)) in H. vm_compute in H. discriminate H.
Qed.

Section Service.

Context {payload R : Type}.
Implicit Types (s : @service payload R) (c : nat) (i key name : string).

Lemma consistent_empty : consistent (@empty_service payload R).
Proof.
  split_and!; simpl.
  - intros k c H. by rewrite lookup_empty in H.
  - intros k1 k2 c H. by rewrite lookup_empty in H.
  - intros c [x H]. by rewrite lookup_empty in H.
Qed.

Lemma consistent_well_formed s : consistent s → well_formed s.
Proof. intros (Hsub & _ & Hlt) k c H. by apply Hlt, (Hsub k). Qed.

Lemma consistent_open_channel key name (h : payload → R) s :
  consistent s → consistent (open_channel key name h s).
Proof.
  intros (Hsub & Hinj & Hlt). unfold consistent, open_channel; simpl. split_and!.
  - intros k c. destruct (decide (key = k)) as [<-|Hne].
    + rewrite lookup_insert_eq. intros [= <-]. rewrite lookup_insert_eq. by eexists.
    + rewrite lookup_insert_ne by done. intros H.
      rewrite lookup_insert_ne; [by eapply Hsub|].
      intros <-. apply Hsub, Hlt in H. lia.
  - intros k1 k2 c.
    destruct (decide (key = k1)) as [<-|Hne1], (decide (key = k2)) as [<-|Hne2];
      rewrite ?lookup_insert_eq, ?lookup_insert_ne by done; try done.
    + intros [= <-] H. apply Hsub, Hlt in H. lia.
    + intros H [= <-]. apply Hsub, Hlt in H. lia.
    + apply Hinj.
  - intros c. destruct (decide (created s = c)) as [<-|Hne]; [lia|].
    rewrite lookup_insert_ne by done. intros H. apply Hlt in H. lia.
Qed.

Lemma consistent_unsubscribeFromChannel key s :
  consistent s → consistent (unsubscribeFromChannel key s).
Proof.
  intros (Hsub & Hinj & Hlt). unfold unsubscribeFromChannel.
  destruct (channels s !! key) as [ch|] eqn:Hk; [|done].
  unfold consistent; simpl. split_and!.
  - intros k c. destruct (decide (key = k)) as [<-|Hne].
    + by rewrite lookup_delete_eq.
    + rewrite lookup_delete_ne by done. intros H.
      rewrite lookup_delete_ne; [by eapply Hsub|].
      intros <-. apply Hne. by eapply Hinj.
  - intros k1 k2 c.
    destruct (decide (key = k1)) as [<-|Hne1]; [by rewrite lookup_delete_eq|].
    destruct (decide (key = k2)) as [<-|Hne2]; [by rewrite lookup_delete_eq|].
    rewrite !lookup_delete_ne by done. apply Hinj.
  - intros c. destruct (decide (ch = c)) as [->|Hne].
    + rewrite lookup_delete_eq. by intros [? [=]].
    + rewrite lookup_delete_ne by done. apply Hlt.
Qed.

Lemma consistent_run_call s (x : @call payload R) :
  consistent s → consistent (run_call s x).
Proof.
  destruct x; simpl; intros H.
  - by apply consistent_open_channel.
  - by apply consistent_open_channel.
  - by apply consistent_unsubscribeFromChannel.
  - by apply consistent_unsubscribeFromChannel.
Qed.

(** X1.  Whatever calls are made on a new service, every entry of its map
    refers to a channel that is still subscribed, no two entries refer to
    the same channel, and every subscribed channel is one the service
    created. *)
Theorem service_stays_consistent (calls : list (@call payload R)) :
  consistent (foldl run_call empty_service calls).
Proof.
  assert (∀ s, consistent s → consistent (foldl run_call s calls)) as H.
  { induction calls as [|x calls IH]; intros s Hs; simpl; [done|].
    by apply IH, consistent_run_call. }
  apply H, consistent_empty.
Qed.

(** X2.  [subscribeToAuctionStatus] and the function it returns are a round
    trip: calling the returned function unsubscribes the channel that was
    opened, after which nothing is delivered on it, removes its key, and
    leaves every other entry and every other channel as they were. *)
Theorem status_subscription_round_trip i (f : payload → R) s (p : payload) :
  consistent s →
  let r := subscribeToAuctionStatus i f s in
  deliver (created s) p r.1 = Some (f p) ∧
  deliver (created s) p (r.2 r.1) = None ∧
  channels (r.2 r.1) = delete ("auction-status:" +:+ i) (channels s) ∧
  subscribed (r.2 r.1) = subscribed s.
Proof.
  intros (Hsub & Hinj & Hlt) r.
  assert (subscribed s !! created s = None) as Hfresh.
  { destruct (subscribed s !! created s) as [x|] eqn:E; [|done].
    assert (created s < created s)%nat by (apply Hlt; by eexists). lia. }
  unfold r, subscribeToAuctionStatus, deliver, unsubscribeFromChannel, open_channel; simpl.
  rewrite !lookup_insert_eq. simpl. rewrite lookup_delete_eq. split_and!; try done.
  - by rewrite delete_insert_eq.
  - by rewrite delete_insert_id.
Qed.

End Service.

Lemma status_subscription_round_trip_witness :
  let r := subscribeToAuctionStatus "a1" (λ n : nat, n) (@empty_service nat nat) in
  deliver 0 7%nat r.1 = Some 7%nat ∧
  deliver 0 7%nat (r.2 r.1) = None ∧
  channels (r.2 r.1) = delete "auction-status:a1" (channels (@empty_service nat nat)) ∧
  subscribed (r.2 r.1) = subscribed (@empty_service nat nat).
Proof.
  apply (status_subscription_round_trip "a1" (λ n : nat, n) empty_service 7%nat).
  apply consistent_empty.
Defined.

Section Leak.

Context {payload R : Type}.
Implicit Types (s : @service payload R) (c : nat) (i key name : string).

(** X3.  The function returned by [subscribeToAuction] does not undo the
    subscription: it looks under the key ["auction:" ++ id], the channel was
    stored under [id], so after it has run the channel that was opened is
    still subscribed, still delivers to the callback, and is still the
    entry for [id].  When no entry is stored under the other key, the call
    changes nothing at all. *)
Theorem bids_unsubscribe_leaves_channel_open i (f : payload → R) s (p : payload) :
  consistent s →
  let r := subscribeToAuction i f s in
  is_Some (subscribed (r.2 r.1) !! created s) ∧
  deliver (created s) p (r.2 r.1) = Some (f p) ∧
  channels (r.2 r.1) !! i = Some (created s) ∧
  (channels s !! ("auction:" +:+ i) = None → r.2 r.1 = r.1).
Proof.
  intros Hc r. pose proof (auction_key_ne i) as Hne.
  destruct Hc as (Hsub & Hinj & Hlt).
  unfold r, subscribeToAuction, unsubscribeFromAuction, unsubscribeFromChannel, deliver.
  simpl. rewrite lookup_insert_ne by done.
  destruct (channels s !! ("auction:" +:+ i)) as [ch|] eqn:Hk; simpl.
  - assert (ch ≠ created s) as Hch.
    { intros ->. apply Hsub, Hlt in Hk. lia. }
    rewrite lookup_delete_ne, lookup_insert_eq by done.
    rewrite lookup_delete_ne, lookup_insert_eq by done.
    split_and!; eauto. done.
  - rewrite !lookup_insert_eq. split_and!; eauto.
Qed.

(** The state of the service after the effect has run and been cleaned up
    [n] times for the same auction. *)
Lemma effect_cycles_state (n : nat) i (f g : payload → R) :
  i ≠ "" →
  let s := effect_cycles n i f g empty_service in
  created s = (2 * n)%nat ∧
  size (subscribed s) = n ∧
  channels s !! ("auction-status:" +:+ i) = None ∧
  channels s !! ("auction:" +:+ i) = None ∧
  (∀ c, is_Some (subscribed s !! c) → (c < created s)%nat) ∧
  (∀ k, (k < n)%nat →
        subscribed s !! (2 * k)%nat = Some {| topic := "auction:" +:+ i; handler := f |}) ∧
  (∀ c x, subscribed s !! c = Some x →
          x = {| topic := "auction:" +:+ i; handler := f |}).
Proof.
  intros Hid. induction n as [|n IH]; simpl.
  - split_and!; try done; try (intros; lia).
    intros c [x H]. by rewrite lookup_empty in H.
  - destruct IH as (Hcr & Hsize & Hst & Hau & Hlt & Hch & Hall).
    set (s := effect_cycles n i f g empty_service) in *.
    pose proof (auction_key_ne i) as Hne1.
    pose proof (status_key_ne i) as Hne2.
    pose proof (status_key_ne_auction_key i i) as Hne3.
    assert (∀ c, (created s ≤ c)%nat → subscribed s !! c = None) as Hfresh.
    { intros c Hc. destruct (subscribed s !! c) as [x|] eqn:E; [|done].
      assert (c < created s)%nat by (apply Hlt; by eexists). lia. }
    unfold effect. rewrite bool_decide_eq_false_2 by done.
    unfold subscribeToAuctionStatus, subscribeToAuction, unsubscribeFromAuction,
      unsubscribeFromChannel, open_channel; simpl.
    rewrite (lookup_insert_ne _ _ ("auction:" +:+ i)) by done.
    rewrite (lookup_insert_ne _ _ ("auction:" +:+ i)) by done.
    rewrite Hau. simpl. rewrite lookup_insert_eq. simpl.
    split_and!.
    + lia.
    + rewrite map_size_delete_Some by (rewrite lookup_insert_eq; by eexists).
      rewrite map_size_insert_None.
      * rewrite map_size_insert_None by (apply Hfresh; lia). simpl. lia.
      * rewrite lookup_insert_ne by lia. apply Hfresh. lia.
    + by rewrite lookup_delete_eq.
    + rewrite lookup_delete_ne by done.
      rewrite lookup_insert_ne by done. rewrite lookup_insert_ne by done. done.
    + intros c. destruct (decide (c = S (created s))) as [->|Hc1].
      { rewrite lookup_delete_eq. by intros [? [=]]. }
      rewrite lookup_delete_ne by done. rewrite lookup_insert_ne by done.
      destruct (decide (c = created s)) as [->|Hc2]; [lia|].
      rewrite lookup_insert_ne by done. intros H. apply Hlt in H. lia.
    + intros k Hk. rewrite lookup_delete_ne by lia. rewrite lookup_insert_ne by lia.
      destruct (decide (k = n)) as [->|Hkn].
      * rewrite Hcr. by rewrite lookup_insert_eq.
      * rewrite lookup_insert_ne by lia. apply Hch. lia.
    + intros c x. destruct (decide (c = S (created s))) as [->|Hc1].
      { by rewrite lookup_delete_eq. }
      rewrite lookup_delete_ne by done. rewrite lookup_insert_ne by done.
      destruct (decide (c = created s)) as [->|Hc2].
      * rewrite lookup_insert_eq. by intros [= <-].
      * rewrite lookup_insert_ne by done. apply Hall.
Qed.

(** X4.  Each run of the page's subscription effect leaves one more bids
    channel subscribed: after the effect has run and been cleaned up [n]
    times on a new service, [n] channels are subscribed, none of them is a
    status channel, and each still hands an incoming change to the bid
    callback. *)
Theorem effect_leaks_one_bids_channel_per_run
    (n : nat) i (f g : payload → R) (p : payload) :
  i ≠ "" →
  let s := effect_cycles n i f g empty_service in
  size (subscribed s) = n ∧
  channels s !! ("auction-status:" +:+ i) = None ∧
  (∀ k, (k < n)%nat → deliver (2 * k)%nat p s = Some (f p)) ∧
  (∀ c x, subscribed s !! c = Some x →
          topic x = "auction:" +:+ i ∧ deliver c p s = Some (f p)).
Proof.
  intros Hid s.
  destruct (effect_cycles_state n i f g Hid)
    as (Hcr & Hsize & Hst & Hau & Hlt & Hch & Hall).
  fold s in Hcr, Hsize, Hst, Hau, Hlt, Hch, Hall.
  split_and!; try done.
  - intros k Hk. unfold deliver. by rewrite (Hch k Hk).
  - intros c x Hx. unfold deliver. rewrite Hx. by rewrite (Hall c x Hx).
Qed.

End Leak.

Lemma bids_unsubscribe_leaves_channel_open_witness :
  let r := subscribeToAuction "a1" (λ n : nat, n) (@empty_service nat nat) in
  is_Some (subscribed (r.2 r.1) !! 0%nat) ∧
  deliver 0 7%nat (r.2 r.1) = Some 7%nat ∧
  channels (r.2 r.1) !! "a1" = Some 0%nat ∧
  (channels (@empty_service nat nat) !! "auction:a1" = None → r.2 r.1 = r.1).
Proof.
  apply (bids_unsubscribe_leaves_channel_open "a1" (λ n : nat, n) empty_service 7%nat).
  apply consistent_empty.
Defined.

Lemma effect_leaks_one_bids_channel_per_run_witness :
  let s := effect_cycles 3 "a1" (λ n : nat, n) (λ n : nat, S n) empty_service in
  size (subscribed s) = 3%nat ∧
  channels s !! "auction-status:a1" = None ∧
  (∀ k, (k < 3)%nat → deliver (2 * k)%nat 7%nat s = Some 7%nat) ∧
  (∀ c x, subscribed s !! c = Some x →
          topic x = "auction:a1" ∧ deliver c 7%nat s = Some 7%nat).
Proof.
  apply (effect_leaks_one_bids_channel_per_run 3 "a1" (λ n : nat, n) (λ n : nat, S n) 7%nat).
  discriminate.
Defined.

End ServiceFacts.

(** ** The auction page: events, the prefilled amount and the admission of
       a bid *)

Module PageMoreFacts.

Import Policy Page PageMore QueryFacts PolicyFacts PageFacts.

Lemma js_or_zero (v : Z) : js_or (Some v) 0 = v.
Proof. unfold js_or. destruct (v =? 0) eqn:E; lia. Qed.

Lemma setAuction_setAuction (x y : option Auction) (st : state) :
  setAuction x (setAuction y st) = setAuction x st.
Proof. done. Qed.

Lemma setAuction_same (st : state) : setAuction (auction st) st = st.
Proof. by destruct st. Qed.

Lemma with_highest_bid_same (a : Auction) : with_highest_bid (highest_bid a) a = a.
Proof. by destruct a. Qed.

Section BidEvents.

Context {payload : Type} (eventType : payload → string) (new_amount : payload → Z).

Lemma onBidUpdate_commute (p q : payload) (st : state) :
  onBidUpdate eventType new_amount p (onBidUpdate eventType new_amount q st)
  = onBidUpdate eventType new_amount q (onBidUpdate eventType new_amount p st).
Proof.
  unfold onBidUpdate.
  destruct (bool_decide (eventType p = "INSERT")), (bool_decide (eventType q = "INSERT"));
    try done.
  rewrite !setAuction_setAuction. simpl. f_equal.
  destruct (auction st) as [a|]; [|done]. simpl. f_equal.
  unfold with_highest_bid; simpl. f_equal. f_equal.
  generalize (js_or (highest_bid a) 0); intros z.
  repeat match goal with |- context [?x =? 0] => destruct (Z.eqb_spec x 0) end; lia.
Qed.

Lemma receive_cons (p : payload) (es : list payload) (st : state) :
  receive eventType new_amount st (p :: es)
  = receive eventType new_amount (onBidUpdate eventType new_amount p st) es.
Proof. done. Qed.

(** X5.  Whatever changes on [bids] the page receives, and in whatever
    number, they change nothing of the page but [highest_bid]; the value
    read from it never goes down, and it ends no lower than the amount of
    any insert received. *)
Theorem bid_events_only_raise_highest_bid (es : list payload) (st : state) (a : Auction) :
  auction st = Some a →
  ∃ h,
    receive eventType new_amount st es = setAuction (Some (with_highest_bid h a)) st ∧
    js_or (highest_bid a) 0 ≤ js_or h 0 ∧
    ∀ p, p ∈ es → eventType p = "INSERT" → new_amount p ≤ js_or h 0.
Proof.
  revert st a. induction es as [|p es IH]; intros st a Ha.
  - exists (highest_bid a). split_and!.
    + unfold receive; simpl. rewrite with_highest_bid_same, <- Ha. by rewrite setAuction_same.
    + lia.
    + intros p Hp. by apply elem_of_nil in Hp.
  - rewrite receive_cons. unfold onBidUpdate.
    destruct (bool_decide (eventType p = "INSERT")) eqn:Ep.
    + rewrite Ha. simpl.
      set (a1 := with_highest_bid _ a).
      destruct (IH (setAuction (Some a1) st) a1 eq_refl) as (h & Hr & Hle & Hall).
      exists h. split_and!.
      * by rewrite Hr.
      * etrans; [|exact Hle]. unfold a1; cbn [highest_bid with_highest_bid]. rewrite js_or_zero. lia.
      * intros q [->|Hq]%elem_of_cons Hins; [|by apply Hall].
        etrans; [|exact Hle]. unfold a1; cbn [highest_bid with_highest_bid]. rewrite js_or_zero. lia.
    + destruct (IH st a Ha) as (h & Hr & Hle & Hall).
      exists h. split_and!; try done.
      intros q [->|Hq]%elem_of_cons Hins; [|by apply Hall].
      apply bool_decide_eq_false in Ep. done.
Qed.

(** X6.  The page ends in the same state in whatever order the changes on
    [bids] are delivered to it. *)
Theorem order_of_bid_events_does_not_matter (es es' : list payload) (st : state) :
  es ≡ₚ es' → receive eventType new_amount st es = receive eventType new_amount st es'.
Proof.
  intros H. revert st.
  induction H as [|x l l' _ IH|x y l|l l' l'' _ IH1 _ IH2]; intros st.
  - done.
  - rewrite !receive_cons. apply IH.
  - rewrite !receive_cons. by rewrite onBidUpdate_commute.
  - by rewrite IH1.
Qed.

End BidEvents.

Lemma bid_events_only_raise_highest_bid_witness :
  ∃ h,
    receive ev_type ev_amount
      (fetchAuctionDetails (Scenario.lamp_db active []) (Scenario.page_of "alice"))
      [ {| ev_type := "INSERT"; ev_amount := 150 |};
        {| ev_type := "INSERT"; ev_amount := 120 |} ]
    = setAuction
        (Some (with_highest_bid h
                 {| A_id := "a1";
                    A_product := embed_product (Some "alice") (Scenario.lamp_db active [])
                                   (Scenario.lamp_auction active);
                    A_start_price := 100; A_end_time := 1000;
                    A_status := Some active; highest_bid := Some 100 |}))
        (fetchAuctionDetails (Scenario.lamp_db active []) (Scenario.page_of "alice")) ∧
    js_or (Some 100) 0 ≤ js_or h 0 ∧
    ∀ p, p ∈ [ {| ev_type := "INSERT"; ev_amount := 150 |};
               {| ev_type := "INSERT"; ev_amount := 120 |} ] →
         ev_type p = "INSERT" → ev_amount p ≤ js_or h 0.
Proof.
  apply (bid_events_only_raise_highest_bid ev_type ev_amount
           [ {| ev_type := "INSERT"; ev_amount := 150 |};
             {| ev_type := "INSERT"; ev_amount := 120 |} ]
           (fetchAuctionDetails (Scenario.lamp_db active []) (Scenario.page_of "alice"))).
  reflexivity.
Defined.

Lemma order_of_bid_events_does_not_matter_witness :
  let e1 := {| ev_type := "INSERT"; ev_amount := 150 |} in
  let e2 := {| ev_type := "INSERT"; ev_amount := 120 |} in
  let st := fetchAuctionDetails (Scenario.lamp_db active []) (Scenario.page_of "alice") in
  receive ev_type ev_amount st [e1; e2] = receive ev_type ev_amount st [e2; e1].
Proof.
  apply (order_of_bid_events_does_not_matter ev_type ev_amount). apply perm_swap.
Defined.

Section StatusEvents.

Context {payload : Type} (eventType : payload → string)
  (old_status new_status : payload → option auction_status).

(** X7.  A status change that the page receives touches nothing but the
    [status] of the auction it holds: the bid form is shown as before, and a
    submission leaves the same database as it would have without it. *)
Theorem status_event_does_not_close_the_form
    (p : payload) (st : state) (c now : timestamptz) (new_id : uuid) (db : database) :
  let st' := onStatusChange eventType old_status new_status p st in
  form_shown c st' = form_shown c st ∧
  (handleBidSubmit now new_id db st').2 = (handleBidSubmit now new_id db st).2 ∧
  bidAmount st' = bidAmount st ∧ error st' = error st ∧
  (highest_bid <$> auction st') = (highest_bid <$> auction st) ∧
  (A_end_time <$> auction st') = (A_end_time <$> auction st).
Proof.
  unfold onStatusChange.
  destruct (_ && _); [|done].
  destruct st as [rid u [a|] l e amt]; simpl; [|done].
  split_and!; try done.
  unfold handleBidSubmit; simpl.
  destruct u as [u|]; [|done]. simpl.
  destruct (amt <=? _); [done|].
  destruct (insert_bid _ _ _ _); [|done].
  unfold icon; simpl. by destruct (A_product a ≫= _).
Qed.

End StatusEvents.

Lemma no_own_bid_nothing_readable (st : state) (db : database) :
  (∀ b, b ∈ bids db → auction_id b = route_id st → session st ≠ Some (bidder_id b)) →
  readable_bids st db = [].
Proof.
  intros H. destruct (readable_bids st db) as [|b l] eqn:E; [done|].
  assert (b ∈ readable_bids st db) as Hb by (rewrite E; left).
  apply elem_of_readable_bids in Hb as (? & ? & ?). by edestruct H.
Qed.

(** X8.  A page opened by a user who has no bid of their own on the auction
    proposes the start price, whatever the others have bid, and submitting
    that amount as it stands stores nothing and shows an error. *)
Theorem prefilled_amount_is_refused_without_own_bid
    (now : timestamptz) (new_id : uuid) (db : database) (st : state) :
  auction st = None →
  (∀ b, b ∈ bids db → auction_id b = route_id st → session st ≠ Some (bidder_id b)) →
  let st' := fetchAuctionDetails db st in
  (∀ a, auction st' = Some a →
        highest_bid a = Some (A_start_price a) ∧ bidAmount st' = A_start_price a) ∧
  (handleBidSubmit now new_id db st').2 = db ∧
  error_shown (handleBidSubmit now new_id db st').1 = true.
Proof.
  intros Hnone Hown st'.
  pose proof (no_own_bid_nothing_readable st db Hown) as Hr.
  unfold st', fetchAuctionDetails, select_top_bid. rewrite Hr. simpl.
  destruct (select_auction st db) as [data|]; simpl.
  - split; [by intros a [= <-]|].
    unfold handleBidSubmit; simpl. destruct (user st); [|done]. simpl.
    destruct (start_price data =? 0); by rewrite Z.leb_refl.
  - rewrite Hnone. split; [done|].
    unfold handleBidSubmit; simpl. rewrite Hnone. by destruct (user st).
Qed.

(** X10.  [handleBidSubmit] stores a bid exactly when a user is signed in,
    the page holds an auction, the amount exceeds what the page takes for
    the highest bid, and the auction of the route is stored as active with
    its end time ahead of the server's clock.  What it stores is one row of
    [bids] for that user, auction and amount; it writes nothing else. *)
Theorem bid_is_stored_exactly_when
    (now : timestamptz) (new_id : uuid) (db : database) (st : state) :
  let r := handleBidSubmit now new_id db st in
  (r.2 ≠ db ↔
   ∃ u a x,
     user st = Some u ∧ auction st = Some a ∧
     js_or (highest_bid a) (A_start_price a) < bidAmount st ∧
     x ∈ auctions db ∧ a_id x = route_id st ∧
     status x = Some active ∧ now < end_time x) ∧
  (r.2 ≠ db →
   ∃ u, user st = Some u ∧
        bids r.2 = bids db ++
                   [bid_with_defaults now new_id (route_id st) (u_id u) (bidAmount st)]) ∧
  products r.2 = products db ∧ auctions r.2 = auctions db ∧
  notifications r.2 = notifications db.
Proof.
  intros r. unfold r.
  destruct (handleBidSubmit_cases now new_id db st)
    as [[Hdb Herr]|(u & a & row & Hu & Ha & Hlt & Hrow & Hpol & Hdb & _)].
  - rewrite Hdb. split_and!; try done.
    split; [done|]. intros (u & a & x & Hu & Ha & Hlt & Hx & Hid & Hact & Hend).
    exfalso. revert Hdb. unfold handleBidSubmit. rewrite Hu, Ha.
    rewrite (proj2 (Z.leb_gt _ _) Hlt).
    assert (users_can_create_bids (session st) now db
              (bid_with_defaults now new_id (route_id st) (u_id u) (bidAmount st)) = true)
      as Hpol.
    { apply users_can_create_bids_spec. unfold session. rewrite Hu. split; [done|].
      by exists x. }
    unfold insert_bid. rewrite Hpol.
    destruct (icon a); simpl; apply set_bids_app_ne.
  - rewrite Hdb. split_and!; try done.
    + split; [|intros _; apply set_bids_app_ne].
      intros _. apply users_can_create_bids_spec in Hpol as (_ & x & Hx & Hid & Hact & Hend).
      exists u, a, x. subst row. by split_and!.
    + intros _. exists u. by subst row.
Qed.

Lemma select_auction_only_row (st : state) (db : database) (data x : Schema.auction) :
  select_auction st db = Some data →
  x ∈ auctions db → a_id x = route_id st → x = data.
Proof.
  unfold select_auction, select_auctions. intros Hsel Hx Hid.
  destruct (anyone_can_view (session st)); [|done].
  assert (x ∈ filter (λ a, a_id a = route_id st) (auctions db)) as Hin
    by (by apply list_elem_of_filter).
  destruct (filter _ (auctions db)) as [|y [|z l]]; try done.
  injection Hsel as <-. by apply list_elem_of_singleton in Hin.
Qed.

(** X12.  For an auction whose product is stored with its images: while
    the browser's clock has not passed the end time the page renders the
    bid form, but once the server's clock has reached the end time no
    submission stores a bid; at the instant of the end time itself the form
    is on screen and every bid is refused. *)
Theorem form_is_open_at_the_end_time_but_bids_are_refused
    (c now : timestamptz) (new_id : uuid) (amt : Z) (db : database) (st : state)
    (data : Schema.auction) (p : Product) :
  select_auction st db = Some data →
  error_shown st = false →
  embed_product (session st) db data = Some p →
  is_Some (P_images p) →
  c ≤ end_time data → end_time data ≤ now →
  let st' := fetchAuctionDetails db st in
  form_on_screen c st' = true ∧
  (handleBidSubmit now new_id db (setBidAmount amt st')).2 = db.
Proof.
  intros Hsel Herr Hp [imgs Himgs] Hc Hnow st'. split.
  - unfold st', fetchAuctionDetails. rewrite Hsel.
    unfold form_on_screen, form_shown, error_shown, icon in *. simpl.
    rewrite Herr, Hp. simpl. rewrite Himgs. simpl.
    rewrite andb_true_r. apply negb_true_iff, Z.ltb_ge. done.
  - destruct (handleBidSubmit_cases now new_id db (setBidAmount amt st'))
      as [[Hdb _]|(u & a & row & _ & _ & _ & Hrow & Hpol & _)]; [done|].
    apply users_can_create_bids_spec in Hpol as (_ & x & Hx & Hid & _ & Hend).
    subst row. simpl in Hid. unfold st' in Hid.
    rewrite (proj1 (fetch_keeps_session db st)) in Hid.
    rewrite (select_auction_only_row st db data x Hsel Hx Hid) in Hend. lia.
Qed.

(** X13.  Bids of other users do not reach the page when it loads: the
    state it loads is the same with and without them. *)
Theorem page_load_ignores_other_users_bids
    (others : list bid) (db : database) (st : state) :
  (∀ b, b ∈ others → session st ≠ Some (bidder_id b)) →
  fetchAuctionDetails (set_bids (λ bs, bs ++ others) db) st = fetchAuctionDetails db st.
Proof.
  intros Hothers.
  assert (readable_bids st (set_bids (λ bs, bs ++ others) db) = readable_bids st db) as Hr.
  { unfold readable_bids, select_bids; simpl. rewrite !filter_app.
    assert (filter (λ b, users_can_view_own_bids (session st) b) others = []) as ->.
    { clear -Hothers. induction others as [|b l IH]; [done|].
      rewrite filter_cons_False.
      - apply IH. intros b' Hb'. apply Hothers. by right.
      - intros Hv. apply Is_true_true, bid_is_readable_by_its_bidder_only in Hv.
        eapply Hothers; [left|done]. }
    by rewrite filter_nil, app_nil_r. }
  unfold fetchAuctionDetails, select_top_bid. rewrite Hr. done.
Qed.

Lemma prefilled_amount_is_refused_without_own_bid_witness :
  let db := Scenario.lamp_db active [Scenario.bob_150] in
  let st' := fetchAuctionDetails db (Scenario.page_of "alice") in
  (∀ a, auction st' = Some a →
        highest_bid a = Some (A_start_price a) ∧ bidAmount st' = A_start_price a) ∧
  (handleBidSubmit 996 "b3" db st').2 = db ∧
  error_shown (handleBidSubmit 996 "b3" db st').1 = true.
Proof.
  apply (prefilled_amount_is_refused_without_own_bid 996 "b3"
           (Scenario.lamp_db active [Scenario.bob_150]) (Scenario.page_of "alice")).
  - reflexivity.
  - intros b Hb _. apply list_elem_of_singleton in Hb. rewrite Hb. discriminate.
Defined.

Lemma form_is_open_at_the_end_time_but_bids_are_refused_witness :
  let db := Scenario.lamp_db active [] in
  let st' := fetchAuctionDetails db (Scenario.page_of "alice") in
  form_on_screen 1000 st' = true ∧
  (handleBidSubmit 1000 "b1" db (setBidAmount 150 st')).2 = db.
Proof.
  apply (form_is_open_at_the_end_time_but_bids_are_refused 1000 1000 "b1" 150
           (Scenario.lamp_db active []) (Scenario.page_of "alice")
           (Scenario.lamp_auction active)
           {| P_id := "p1"; P_title := "Lamp"; P_images := Some ["lamp.png"];
              P_seller_id := "sam" |}).
  - reflexivity.
  - reflexivity.
  - reflexivity.
  - by eexists.
  - simpl. lia.
  - simpl. lia.
Defined.

Lemma page_load_ignores_other_users_bids_witness :
  fetchAuctionDetails
    (set_bids (λ bs, bs ++ [Scenario.bob_150]) (Scenario.lamp_db active []))
    (Scenario.page_of "alice")
  = fetchAuctionDetails (Scenario.lamp_db active []) (Scenario.page_of "alice").
Proof.
  apply (page_load_ignores_other_users_bids [Scenario.bob_150]
           (Scenario.lamp_db active []) (Scenario.page_of "alice")).
  intros b Hb. apply list_elem_of_singleton in Hb. rewrite Hb. discriminate.
Defined.

End PageMoreFacts.

(** ** The settlement function and the policies on [bids]: what they read *)

Module TriggerFacts.

Import Settlement Policy QueryFacts PolicyFacts.

(** X16.  A settlement reads the bids of its own auction only: two tables
    of bids that hold the same rows for the auction, in the same order,
    lead to the same settlement. *)
Theorem settlement_reads_own_bids_only
    (OLD NEW : auction) (db : database) (bs : list bid) :
  filter (λ b, auction_id b = a_id NEW) bs
  = filter (λ b, auction_id b = a_id NEW) (bids db) →
  determine_auction_winner OLD NEW (set_bids (λ _, bs) db)
  = set_bids (λ _, bs) <$> determine_auction_winner OLD NEW db.
Proof.
  intros Hf. unfold determine_auction_winner, select_winning_bid. simpl. rewrite Hf.
  destruct (_ && _); [|done].
  destruct (order_by_amount_desc_limit_1 _) as [wb|]; simpl; [|done].
  destruct (_ && _); [|done].
  unfold product_column; simpl.
  destruct (filter (λ q, p_id q = product_id NEW) (products db)) as [|p [|p' l]] eqn:Hp;
    simpl; rewrite ?Hp; simpl; done.
Qed.

Lemma settlement_reads_own_bids_only_witness :
  let other := {| b_id := "b9"; auction_id := "a2"; bidder_id := "bob"; amount := 900;
                  created_at := Some 10; updated_at := Some 10 |} in
  let db := Scenario.lamp_db ended [Scenario.alice_150] in
  determine_auction_winner (Scenario.lamp_auction active) (Scenario.lamp_auction ended)
    (set_bids (λ _, [other; Scenario.alice_150]) db)
  = set_bids (λ _, [other; Scenario.alice_150])
      <$> determine_auction_winner (Scenario.lamp_auction active)
            (Scenario.lamp_auction ended) db.
Proof.
  apply (settlement_reads_own_bids_only (Scenario.lamp_auction active)
           (Scenario.lamp_auction ended) (Scenario.lamp_db ended [Scenario.alice_150])).
  reflexivity.
Defined.

(** X18.  A bid that was inserted is read back by its bidder, after the
    bids that the bidder could read before, and by nobody else: what any
    other caller reads from [bids] is what it read before. *)
Theorem inserted_bid_is_read_by_its_bidder_only
    (uid : auth_uid) (now : timestamptz) (row : bid) (db db' : database) :
  insert_bid uid now row db = Some db' →
  select_bids uid db' = select_bids uid db ++ [row] ∧
  ∀ uid', uid' ≠ uid → select_bids uid' db' = select_bids uid' db.
Proof.
  intros H. apply insert_bid_some in H as [Hpol ->].
  apply users_can_create_bids_spec in Hpol as [-> _].
  unfold select_bids; simpl. split.
  - rewrite filter_app. f_equal. rewrite filter_cons_True; [done|].
    apply Is_true_true. by apply bid_is_readable_by_its_bidder_only.
  - intros uid' Hne. rewrite filter_app, filter_cons_False, filter_nil, app_nil_r; [done|].
    intros Hv. apply Is_true_true, bid_is_readable_by_its_bidder_only in Hv. done.
Qed.

Lemma inserted_bid_is_read_by_its_bidder_only_witness :
  let db := Scenario.lamp_db active [] in
  let db' := set_bids (λ bs, bs ++ [Scenario.alice_150]) db in
  select_bids (Some "alice") db' = select_bids (Some "alice") db ++ [Scenario.alice_150] ∧
  ∀ uid', uid' ≠ Some "alice" → select_bids uid' db' = select_bids uid' db.
Proof.
  apply (inserted_bid_is_read_by_its_bidder_only (Some "alice") 990 Scenario.alice_150
           (Scenario.lamp_db active [])).
  reflexivity.
Defined.

End TriggerFacts.

(** ** [ImageCarousel] and [NotificationService] *)

Module WidgetFacts.

Import ImageCarousel NotificationService.

Lemma rem_wrap (i n : Z) : 0 ≤ i < n → Z.rem (i + n) n = i.
Proof.
  intros H. rewrite Z.rem_mod_nonneg by lia.
  replace (i + n) with (i + 1 * n) by lia. rewrite Z.mod_add by lia.
  apply Z.mod_small. lia.
Qed.

Lemma rem_same (n : Z) : 0 < n → Z.rem n n = 0.
Proof. intros H. rewrite Z.rem_mod_nonneg by lia. apply Z.mod_same. lia. Qed.

(** X20.  On an index within the array, the two arrows keep the index
    within the array and undo each other, wrapping around at both ends. *)
Theorem arrows_stay_in_range_and_undo_each_other (images : list text) (i : Z) :
  0 ≤ i < Z.of_nat (length images) →
  (∃ j, next images (Some i) = Some j ∧ 0 ≤ j < Z.of_nat (length images) ∧
        previous images (Some j) = Some i ∧
        (j = 0 ↔ i = Z.of_nat (length images) - 1)) ∧
  (∃ j, previous images (Some i) = Some j ∧ 0 ≤ j < Z.of_nat (length images) ∧
        next images (Some j) = Some i ∧
        (i = 0 ↔ j = Z.of_nat (length images) - 1)).
Proof.
  intros Hi. unfold next, previous, js_mod; simpl.
  set (n := Z.of_nat (length images)) in *.
  destruct (Z.eqb_spec n 0) as [|_]; [lia|]. split.
  - destruct (decide (i + 1 = n)) as [E|E].
    + rewrite E, rem_same by lia. eexists; split; [done|].
      split; [lia|]. split; [|lia].
      replace (0 - 1 + n) with (n - 1) by lia. rewrite Z.rem_small by lia. f_equal; lia.
    + rewrite Z.rem_small by lia. eexists; split; [done|].
      split; [lia|]. split; [|lia].
      replace (i + 1 - 1 + n) with (i + n) by lia. by rewrite rem_wrap.
  - destruct (decide (i = 0)) as [->|E].
    + replace (0 - 1 + n) with (n - 1) by lia. rewrite Z.rem_small by lia.
      eexists; split; [done|]. split; [lia|]. split; [|lia].
      replace (n - 1 + 1) with n by lia. by rewrite rem_same by lia.
    + replace (i - 1 + n) with ((i - 1) + n) by lia. rewrite rem_wrap by lia.
      eexists; split; [done|]. split; [lia|]. split; [|lia].
      replace (i - 1 + 1) with i by lia. by rewrite Z.rem_small by lia.
Qed.

Lemma arrows_stay_in_range_and_undo_each_other_witness :
  let images := ["a.png"; "b.png"; "c.png"] in
  (∃ j, next images (Some 2) = Some j ∧ 0 ≤ j < 3 ∧
        previous images (Some j) = Some 2 ∧ (j = 0 ↔ 2 = 3 - 1)) ∧
  (∃ j, previous images (Some 2) = Some j ∧ 0 ≤ j < 3 ∧
        next images (Some j) = Some 2 ∧ (2 = 0 ↔ j = 3 - 1)).
Proof.
  apply (arrows_stay_in_range_and_undo_each_other ["a.png"; "b.png"; "c.png"] 2).
  simpl. lia.
Defined.

Lemma arrows_in_range (images : list text) (i : Z) :
  0 ≤ i < Z.of_nat (length images) →
  (∃ j, next images (Some i) = Some j ∧ 0 ≤ j < Z.of_nat (length images)) ∧
  (∃ j, previous images (Some i) = Some j ∧ 0 ≤ j < Z.of_nat (length images)).
Proof.
  intros Hi. unfold next, previous, js_mod; simpl.
  destruct (Z.eqb_spec (Z.of_nat (length images)) 0) as [|_]; [lia|].
  split; (eexists; split; [done|]); apply Z.rem_bound_pos; lia.
Qed.

Lemma press_in_range (images : list text) (i : Z) (c : click) :
  0 ≤ i < Z.of_nat (length images) →
  ∃ j, press images (Some i) c = Some j ∧ 0 ≤ j < Z.of_nat (length images).
Proof.
  intros Hi. unfold press. destruct (arrows_shown images); [|by eauto].
  destruct (arrows_in_range images i Hi) as [(j & Hj & Hr) (j' & Hj' & Hr')].
  destruct c as [| |k]; eauto.
  destruct (bool_decide (k < length images)%nat) eqn:E; [|by eauto].
  apply bool_decide_eq_true in E. eexists; split; [done|]. lia.
Qed.

Lemma presses_in_range (images : list text) (cs : list click) (i : Z) :
  0 ≤ i < Z.of_nat (length images) →
  ∃ j, foldl (press images) (Some i) cs = Some j ∧ 0 ≤ j < Z.of_nat (length images).
Proof.
  revert i. induction cs as [|c cs IH]; intros i Hi; simpl.
  - eauto.
  - destruct (press_in_range images i c Hi) as (k & -> & Hk). by apply IH.
Qed.

(** X21.  Whatever is pressed, in whatever order, the index of a carousel
    with at least one image stays within the array; what is shown is the
    image at that index, or the fallback when that image is the empty
    string. *)
Theorem carousel_always_shows_an_image_of_the_list (images : list text) (cs : list click) :
  images ≠ [] →
  ∃ j u, currentIndex images cs = Some j ∧
         0 ≤ j < Z.of_nat (length images) ∧
         images !! Z.to_nat j = Some u ∧
         src images (currentIndex images cs) = (if bool_decide (u = "") then fallback else u).
Proof.
  intros Hne.
  assert (∃ j, currentIndex images cs = Some j ∧ 0 ≤ j < Z.of_nat (length images))
    as (j & Hj & Hr).
  { apply presses_in_range. destruct images; [done|simpl; lia]. }
  destruct (lookup_lt_is_Some_2 images (Z.to_nat j)) as [u Hu]; [lia|].
  exists j, u. rewrite Hj. split_and!; try done; try lia.
  unfold src, at_index. cbn [mbind option_bind].
  destruct (Z.ltb_spec j 0); [lia|]. by rewrite Hu.
Qed.

Lemma carousel_always_shows_an_image_of_the_list_witness :
  let images := ["a.png"; "b.png"; "c.png"] in
  let cs := [Previous; Dot 1; Next; Next] in
  ∃ j u, currentIndex images cs = Some j ∧
         0 ≤ j < Z.of_nat (length images) ∧
         images !! Z.to_nat j = Some u ∧
         src images (currentIndex images cs) = (if bool_decide (u = "") then fallback else u).
Proof.
  apply (carousel_always_shows_an_image_of_the_list ["a.png"; "b.png"; "c.png"]
           [Previous; Dot 1; Next; Next]).
  discriminate.
Defined.

Lemma showNotifications_granted (bs : list browser) :
  Forall (λ o, shown o = true ∧ asked o = false ∧ hasPermission o = true)
    (showNotifications bs true).
Proof. induction bs as [|b bs IH]; simpl; constructor; [done|exact IH]. Qed.

(** X22.  Permission is asked for until it is granted and never again:
    once a call has shown a notification, every later call shows one
    without asking the browser, whatever the browser would answer then.  On
    a browser without notifications a call neither asks nor shows. *)
Theorem permission_is_asked_until_granted
    (bs : list browser) (has : bool) (l1 l2 : list outcome) (o : outcome) :
  showNotifications bs has = l1 ++ o :: l2 →
  (shown o = true → Forall (λ o', shown o' = true ∧ asked o' = false) l2) ∧
  (has = false → Forall (λ b, supported b = false) bs →
   shown o = false ∧ asked o = false).
Proof.
  revert has l1. induction bs as [|b bs IH]; intros has l1 H; simpl in H.
  - by destruct l1.
  - destruct l1 as [|o1 l1]; simpl in H.
    + injection H as <- <-. split.
      * unfold showNotification; simpl. intros Hs. rewrite Hs.
        eapply Forall_impl; [apply showNotifications_granted|]. by intros o' (? & ? & _).
      * intros -> Hb. apply Forall_cons in Hb as [Hb _].
        unfold showNotification, requestPermission. by rewrite Hb.
    + injection H as _ H. destruct (IH _ _ H) as [H1 H2]. split; [done|].
      intros -> Hb. apply Forall_cons in Hb as [Hb Hbs].
      apply H2; [|done].
      unfold showNotification, requestPermission. by rewrite Hb.
Qed.

Lemma permission_is_asked_until_granted_witness :
  let deny := {| supported := true; grants := false |} in
  let grant := {| supported := true; grants := true |} in
  let o := {| hasPermission := true; asked := true; shown := true |} in
  let l1 := [{| hasPermission := false; asked := true; shown := false |}] in
  let l2 := [{| hasPermission := true; asked := false; shown := true |}] in
  (shown o = true → Forall (λ o', shown o' = true ∧ asked o' = false) l2) ∧
  (false = false → Forall (λ b, supported b = false) [deny; grant; deny] →
   shown o = false ∧ asked o = false).
Proof.
  apply (permission_is_asked_until_granted
           [ {| supported := true; grants := false |};
             {| supported := true; grants := true |};
             {| supported := true; grants := false |} ]
           false
           [{| hasPermission := false; asked := true; shown := false |}]
           [{| hasPermission := true; asked := false; shown := true |}]
           {| hasPermission := true; asked := true; shown := true |}).
  reflexivity.
Defined.

End WidgetFacts.

(** ** The dashboard's list of won auctions *)

Module DashboardFacts.

Import Policy Dashboard QueryFacts PolicyFacts.

Lemma embed_lookup (u : uuid) (db : database) (b : bid) :
  embed (Some u) db b
  = (λ a, {| E_id := a_id a; E_status := status a; E_end_time := end_time a;
             E_winner_id := winner_id a;
             E_product :=
               (λ p, {| P_title := title p; P_images := images p |})
                 <$> List.find (λ p, bool_decide (p_id p = product_id a)) (products db) |})
      <$> lookup_auction db (auction_id b).
Proof.
  unfold embed, lookup_auction, select_auctions, select_products, anyone_can_view.
  by rewrite bool_decide_eq_true_2 by (by eexists).
Qed.

Lemma process_rows (u : uuid) (db : database) (l : list bid) :
  (∀ b, b ∈ l → is_Some (lookup_auction db (auction_id b))) →
  ∃ Bs,
    mapM (process u)
      ((λ b, {| R_id := b_id b; R_amount := amount b; R_created_at := created_at b;
                R_auction := embed (Some u) db b |}) <$> l) = Some Bs ∧
    Forall2 (made_from u db) l Bs.
Proof.
  induction l as [|b l IH]; intros Hfk.
  - exists []. by split; [|constructor].
  - destruct IH as (Bs & HBs & Hrel); [intros b' Hb'; apply Hfk; by right|].
    destruct (Hfk b) as [a Ha]; [left|].
    pose proof (lookup_auction_id _ _ _ Ha) as [Hid _].
    rewrite fmap_cons. cbn [mapM]. rewrite HBs.
    unfold process. cbn [R_auction]. rewrite embed_lookup, Ha. simpl.
    eexists. split; [done|]. constructor; [|done].
    unfold made_from; simpl. by rewrite Ha.
Qed.

Lemma made_from_filter (u : uuid) (db : database) (l : list bid) (Bs : list Bid) :
  Forall (λ b, bidder_id b = u) l →
  Forall2 (made_from u db) l Bs →
  Forall2 (made_from u db)
    (filter (λ b, bid_of_the_winner u db b) l)
    (filter (λ B, is_winning B && bool_decide (BA_status (B_auction B) = Some ended)) Bs).
Proof.
  intros Hu H. induction H as [|b B l Bs Hm _ IH]; [constructor|].
  apply Forall_cons in Hu as [Hb Hu]. specialize (IH Hu).
  pose proof Hm as (_ & _ & Hw).
  assert (bid_of_the_winner u db b
          = is_winning B && bool_decide (BA_status (B_auction B) = Some ended)) as E.
  { unfold bid_of_the_winner. rewrite Hw. by rewrite bool_decide_eq_true_2. }
  destruct (is_winning B && _) eqn:EB.
  - rewrite (filter_cons_True _ b) by (cbv beta; rewrite E; simpl; tauto).
    rewrite (filter_cons_True _ B) by (cbv beta; rewrite EB; simpl; tauto). by constructor.
  - rewrite (filter_cons_False _ b) by (cbv beta; rewrite E; simpl; tauto).
    rewrite (filter_cons_False _ B) by (cbv beta; rewrite EB; simpl; tauto). done.
Qed.

(** X23.  The dashboard lists one won auction for every bid that its user
    placed on an auction the user has won, not one for every auction won:
    each such bid gives an entry that carries the auction and, as its
    highest bid, the amount of that bid. *)
Theorem every_bid_of_the_winner_is_listed_as_won
    (u : uuid) (db : database) (st : state) :
  (∀ b, b ∈ bids db → is_Some (lookup_auction db (auction_id b))) →
  let st' := fetchDashboardData true u db st in
  error st' = error st ∧
  length (wonAuctions st') = length (filter (λ b, bid_of_the_winner u db b) (bids db)) ∧
  ∀ b, b ∈ bids db → bid_of_the_winner u db b = true →
       ∃ w, w ∈ wonAuctions st' ∧ W_id w = auction_id b ∧ W_highest_bid w = amount b.
Proof.
  intros Hfk st'.
  set (l := merge_sort created_at_desc
              (filter (λ b, bidder_id b = u) (select_bids (Some u) db))).
  assert (l ≡ₚ filter (λ b, bidder_id b = u) (bids db)) as Hperm.
  { unfold l. rewrite merge_sort_Permutation. unfold select_bids.
    rewrite list_filter_filter. erewrite list_filter_iff; [done|].
    intros b. simpl. rewrite Is_true_true, bid_is_readable_by_its_bidder_only.
    split; [by intros [? _]|]. intros <-. done. }
  assert (∀ b, b ∈ l ↔ b ∈ bids db ∧ bidder_id b = u) as Hl.
  { intros b. rewrite Hperm, list_elem_of_filter. tauto. }
  destruct (process_rows u db l) as (Bs & HBs & Hrel).
  { intros b Hb. apply Hfk. by apply Hl. }
  unfold st', fetchDashboardData, select_my_bids. fold l. rewrite HBs. simpl.
  assert (Forall2 (made_from u db)
            (filter (λ b, bid_of_the_winner u db b) l)
            (filter (λ B, is_winning B
                          && bool_decide (BA_status (B_auction B) = Some ended)) Bs)) as Hf.
  { apply made_from_filter; [|done]. apply Forall_forall. intros b Hb. by apply Hl. }
  split; [done|]. split.
  - rewrite length_fmap, <- (Forall2_length _ _ _ Hf).
    rewrite Hperm, list_filter_filter.
    f_equal. apply list_filter_iff. intros b. unfold bid_of_the_winner.
    rewrite andb_True, bool_decide_spec. tauto.
  - intros b Hb Hw.
    assert (b ∈ filter (λ b, bid_of_the_winner u db b) l) as Hin.
    { apply list_elem_of_filter. split; [by rewrite Hw|]. apply Hl. split; [done|].
      unfold bid_of_the_winner in Hw. apply andb_true_iff in Hw as [Hw _].
      by apply bool_decide_eq_true in Hw. }
    apply list_elem_of_lookup in Hin as [i Hi].
    destruct (Forall2_lookup_l _ _ _ _ _ Hf Hi) as (B & HB & Hid & Hamt & _).
    exists (won_entry B). split_and!; try done.
    apply list_elem_of_fmap. exists B. split; [done|]. by eapply list_elem_of_lookup_2.
Qed.

Lemma every_bid_of_the_winner_is_listed_as_won_witness :
  let low := Scenario.bid_of "b0" "alice" 120 980 in
  let db := Settlement.settled (Scenario.lamp_auction ended) Scenario.alice_150 Scenario.lamp
              (Scenario.lamp_db ended [low; Scenario.alice_150]) in
  let st := {| myBids := []; wonAuctions := []; loading := true; error := None |} in
  let st' := fetchDashboardData true "alice" db st in
  error st' = error st ∧
  length (wonAuctions st')
  = length (filter (λ b, bid_of_the_winner "alice" db b) (bids db)) ∧
  ∀ b, b ∈ bids db → bid_of_the_winner "alice" db b = true →
       ∃ w, w ∈ wonAuctions st' ∧ W_id w = auction_id b ∧ W_highest_bid w = amount b.
Proof.
  apply (every_bid_of_the_winner_is_listed_as_won "alice"
           (Settlement.settled (Scenario.lamp_auction ended) Scenario.alice_150 Scenario.lamp
              (Scenario.lamp_db ended
                 [Scenario.bid_of "b0" "alice" 120 980; Scenario.alice_150]))
           {| myBids := []; wonAuctions := []; loading := true; error := None |}).
  intros b Hb. simpl in Hb.
  apply elem_of_cons in Hb as [->|Hb]; [by eexists|].
  apply list_elem_of_singleton in Hb as ->. by eexists.
Defined.

End DashboardFacts.
